(** * PhotoVault: the image ingestion pipeline

    A shallow embedding of the upload route ([src/app/api/images/route.ts]),
    the derivative generator and path planner ([src/lib/image-processing.ts]),
    the storage helpers ([src/lib/supabase.ts]), the image repository
    functions ([src/lib/db.ts]) and the upload validation
    ([src/lib/validation.ts]), with the properties of the ingestion
    pipeline proved about them; then the routes that read and delete what
    the pipeline stored ([GET /api/images], [GET] and [DELETE] of
    [src/app/api/images/[id]/route.ts]) and three utilities
    ([formatRateLimitError], [generateInviteCode], [sanitizeString]).

    External collaborators (the sharp codec, the Supabase object store and
    database, the JWT resolver, the in-memory rate limiter) are not code of
    this repository: each is an oracle field of [World], and the effects the
    repository's code has on them are threaded through an explicit state
    with a log of every external call. *)

From Stdlib Require Import ZArith QArith Qround Qabs Qpower Lqa Lia.
From Corelib Require Import SpecFloat.
From stdpp Require Import base option list strings pretty gmap.

Local Open Scope Z_scope.

(** * The model *)

(** ** JavaScript numbers

    Image dimensions are JS numbers (IEEE-754 binary64).  The integers that
    occur (widths, heights, sizes) are far below 2^53 and are exact, so they
    are kept in [Z].  The one inexact computation of the pipeline is
    [(targetWidth / originalWidth) * originalHeight]; its intermediate
    values are kept as the exact rational value of the double, and every
    operation rounds its exact result to the nearest double, ties to even,
    as IEEE-754 prescribes. *)
Module JsNumber.

(** [floor (log2 q)] for a positive rational. *)
Definition floor_log2 (q : Q) : Z :=
  let k := Z.log2 (Qnum q) - Z.log2 (Zpos (Qden q)) in
  if Qle_bool (2 ^ k) q then k else k - 1.

(** Exponent of the unit in the last place of the double nearest to [q]:
    53 bits of precision, and -1074 in the subnormal range. *)
Definition ulp_exp (q : Q) : Z := Z.max (floor_log2 q - 52) (-1074).

(** Nearest integer, ties to the even one. *)
Definition round_half_even (q : Q) : Z :=
  let f := Qfloor q in
  match (q - inject_Z f ?= 1 # 2)%Q with
  | Lt => f
  | Gt => f + 1
  | Eq => if Z.even f then f else f + 1
  end.

Definition f64_round_pos (q : Q) : Q :=
  let e := ulp_exp q in
  Qred (inject_Z (round_half_even (q / 2 ^ e)) * 2 ^ e).

(** The double nearest to [q] (overflow to infinity, at 2^1024, is out of
    the range of this model). *)
Definition f64_round (q : Q) : Q :=
  match (q ?= 0)%Q with
  | Eq => 0%Q
  | Gt => f64_round_pos q
  | Lt => (- f64_round_pos (- q))%Q
  end.

(** JS [a / b] and [a * b] on doubles. *)
Definition div (a b : Q) : Q := f64_round (a / b).
Definition mul (a b : Q) : Q := f64_round (a * b).

(** JS [Math.round]: the nearest integer, ties towards +infinity. *)
Definition Math_round (x : Q) : Z := Qfloor (x + (1 # 2)).

(** JS [Math.min] on integers. *)
Definition Math_min (a b : Z) : Z := Z.min a b.

(** The value of a finite [spec_float], to compare this model with the
    reference IEEE-754 operations of [SpecFloat]. *)
Definition SF2Q (x : spec_float) : option Q :=
  match x with
  | S754_zero _ => Some 0%Q
  | S754_finite s m e =>
      Some (Qred (inject_Z (if s then Z.neg m else Z.pos m) * 2 ^ e))
  | _ => None
  end.

Definition Z2SF (z : Z) : spec_float := binary_normalize 53 1024 z 0 false.

(** [Math.round((a / b) * c)] computed with the reference operations. *)
Definition reference_scale (a b c : Z) : option Z :=
  Math_round <$> SF2Q (SFmul 53 1024 (SFdiv 53 1024 (Z2SF a) (Z2SF b)) (Z2SF c)).

End JsNumber.

Import JsNumber.

(** ** Derivative dimensions ([processImage], the arithmetic)

    [Math.round((targetWidth / originalWidth) * originalHeight)]. *)
Definition scaledHeight (targetWidth originalWidth originalHeight : Z) : Z :=
  Math_round (mul (div (inject_Z targetWidth) (inject_Z originalWidth))
                  (inject_Z originalHeight)).

(** ** JavaScript values *)

Definition Buffer := list Byte.byte.

(** [x || d] on a possibly-undefined number: [undefined] and [0] are falsy. *)
Definition number_or (x : option Z) (d : Z) : Z :=
  match x with
  | Some 0 => d
  | Some n => n
  | None => d
  end.

(** [s || d] on a possibly-null string: [null] and the empty string are
    falsy. *)
Definition string_or (s : option string) (d : string) : string :=
  match s with
  | Some EmptyString => d
  | Some s' => s'
  | None => d
  end.

(** [!s] on a possibly-undefined string. *)
Definition falsy (s : option string) : bool :=
  match s with
  | None | Some EmptyString => true
  | Some _ => false
  end.

(** [xs.join(sep)]. *)
Definition join (sep : string) (xs : list string) : string := String.concat sep xs.

(** ** Configuration

    The environment variables the pipeline reads.  A numeric variable is
    kept as the integer it parses to, [None] when it is unset or empty (the
    [|| 'default'] branch); a value that does not parse to an integer is
    outside the model. *)
Record ProcessEnv := {
  env_PREVIEW_WIDTH : option Z;
  env_PREVIEW_QUALITY : option Z;
  env_FULL_WIDTH : option Z;
  env_FULL_QUALITY : option Z;
  env_MAX_FILE_SIZE_MB : option Z;
  env_SUPABASE_SERVICE_ROLE_KEY : option string
}.

(** [parseInt(process.env.X || 'd', 10)]. *)
Definition parseInt_env (x : option Z) (d : Z) : Z := default d x.

Definition PREVIEW_WIDTH (env : ProcessEnv) : Z := parseInt_env (env_PREVIEW_WIDTH env) 300.
Definition PREVIEW_QUALITY (env : ProcessEnv) : Z := parseInt_env (env_PREVIEW_QUALITY env) 40.
Definition FULL_WIDTH (env : ProcessEnv) : Z := parseInt_env (env_FULL_WIDTH env) 2000.
Definition FULL_QUALITY (env : ProcessEnv) : Z := parseInt_env (env_FULL_QUALITY env) 75.

(** ** Upload validation ([validateImageFile]) *)

(** The browser [File] handed over by the form: name, declared MIME type,
    size in bytes and content.  Validation reads [size], processing reads
    the content; the model keeps them as two fields, as the interface has
    them. *)
Record File := {
  file_name : string;
  file_type : string;
  file_size : Z;
  file_bytes : Buffer
}.

Definition ALLOWED_MIME_TYPES : list string :=
  ["image/jpeg"; "image/png"; "image/webp"; "image/gif"; "image/heic"; "image/heif"].

Definition MAX_FILE_SIZE (env : ProcessEnv) : Z :=
  parseInt_env (env_MAX_FILE_SIZE_MB env) 10 * 1024 * 1024.

Record ValidationResult := {
  valid : bool;
  validation_error : option string
}.

Definition validateImageFile (env : ProcessEnv) (file : File) : ValidationResult :=
  if negb (bool_decide (file_type file ∈ ALLOWED_MIME_TYPES)) then
    {| valid := false;
       validation_error :=
         Some ("Invalid file type. Allowed types: " +:+ join ", " ALLOWED_MIME_TYPES) |}
  else if MAX_FILE_SIZE env <? file_size file then
    let maxSizeMB := MAX_FILE_SIZE env / (1024 * 1024) in
    {| valid := false;
       validation_error := Some ("File size exceeds " +:+ pretty maxSizeMB +:+ "MB limit") |}
  else
    {| valid := true; validation_error := None |}.

(** ** Storage path planner ([generateStoragePaths]) *)

Record StoragePaths := {
  previewPath : string;
  fullPath : string
}.

Definition generateStoragePaths (userId filename : string) : StoragePaths :=
  {| previewPath := userId +:+ "/previews/" +:+ filename;
     fullPath := userId +:+ "/full/" +:+ filename |}.

(** ** Data model *)

(** What [sharp(...).metadata()] reports; every field is optional in the
    codec's interface. *)
Record Metadata := {
  md_width : option Z;
  md_height : option Z;
  md_format : option string
}.

Record Derivative := {
  d_buffer : Buffer;
  d_width : Z;
  d_height : Z;
  d_size : Z
}.

Record ProcessedImage := {
  preview : Derivative;
  full : Derivative;
  filename : string;
  format : string
}.

(** A row of the [images] table ([Image] in [types.ts]). *)
Record Image := {
  img_id : string;
  img_user_id : string;
  img_filename : string;
  img_original_filename : option string;
  img_preview_path : string;
  img_full_path : string;
  img_file_size_preview : option Z;
  img_file_size_full : option Z;
  img_mime_type : option string;
  img_width : option Z;
  img_height : option Z;
  img_created_at : string;
  img_updated_at : string
}.

Record ImageWithUrls := {
  image : Image;
  preview_url : string;
  full_url : string
}.

Record JWTPayload := {
  userId : string;
  email : string;
  role : string
}.

Record RateLimitResult := {
  rl_success : bool;
  rl_remainingPoints : Z;
  rl_msBeforeNext : Z
}.

(** The body of the response and its HTTP status
    ([NextResponse.json(body, { status })], 200 when no status is given). *)
Record ApiResponse := {
  status : Z;
  success : bool;
  error : option string;
  data : option ImageWithUrls;
  message : option string
}.

Definition failure (st : Z) (msg : string) : ApiResponse :=
  {| status := st; success := false; error := Some msg; data := None; message := None |}.

(** ** The outside world

    One object of the bucket: its bytes and content type. *)
Record StoredObject := {
  obj_body : Buffer;
  obj_contentType : string
}.

(** What [request.formData()] yields: the promise rejects on a body that is
    not form data, or resolves to a form with or without a [file] entry. *)
Inductive FormData :=
| FormRejects
| FormWithout
| FormWith (file : File).

Record Request := {
  req_session : option JWTPayload;      (* what [getCurrentUser()] resolves to *)
  req_rateLimit : RateLimitResult;      (* what [uploadLimiter.consume] answers *)
  req_formData : FormData
}.

(** The behaviour of the collaborators during one request.  A fault is the
    [error] object the Supabase client returns, [None] when the backend
    answers normally. *)
Record World := {
  process_env : ProcessEnv;
  (* sharp: None when the promise rejects *)
  sharp_metadata : Buffer -> option Metadata;
  sharp_webp : Buffer -> Z -> Z -> Z -> Z -> option Buffer;
  uuidv4 : string;
  (* Supabase storage *)
  storage_upload_fault : string -> option string;
  storage_remove_fault : list string -> option string;
  storage_sign_result : string -> Z -> option string;
  full_upload_lands_first : bool;
  (* Supabase database *)
  db_insert_fault : option string;
  db_select_fault : option string;
  db_delete_fault : option string;
  db_uuid : string;
  db_now : string
}.

(** Every call that leaves the process is recorded. *)
Inductive Event :=
| SharpMetadata (input : Buffer)
| SharpEncode (width height quality effort : Z)
| StorageUpload (path : string) (ok : bool)
| StorageRemove (paths : list string) (ok : bool)
| StorageSign (path : string) (expiresIn : Z) (ok : bool)
| DbInsert (ok : bool)
| DbSelect (ok : bool)
| DbDelete (ok : bool).

Record State := {
  bucket : gmap string StoredObject;
  images : list Image;
  log : list Event
}.

Definition record (e : Event) (s : State) : State :=
  {| bucket := bucket s; images := images s; log := log s ++ [e] |}.

(** ** Async functions

    An [async] function is a state transformer that either resolves to a
    value or rejects; a rejection keeps the effects made before it. *)
Inductive Outcome (A : Type) :=
| Resolved (a : A)
| Rejected (reason : string).
Arguments Resolved {A} a.
Arguments Rejected {A} reason.

Definition Async (A : Type) : Type := State -> Outcome A * State.

Definition ret {A} (a : A) : Async A := fun s => (Resolved a, s).
Definition throw {A} (reason : string) : Async A := fun s => (Rejected reason, s).

Definition bind {A B} (m : Async A) (k : A -> Async B) : Async B :=
  fun s =>
    match m s with
    | (Resolved a, s') => k a s'
    | (Rejected r, s') => (Rejected r, s')
    end.

Declare Scope async_scope.
Delimit Scope async_scope with async.
Notation "x <- m ;; k" := (bind m (fun x => k))
  (at level 100, m at next level, right associativity) : async_scope.
Local Open Scope async_scope.

(** [try { body } catch (error) { handler }]. *)
Definition try_catch {A} (body : State -> Outcome A * State) (handler : string -> A)
  : State -> A * State :=
  fun s =>
    match body s with
    | (Resolved a, s') => (a, s')
    | (Rejected r, s') => (handler r, s')
    end.

(** [await Promise.all([a, b])]: both calls are made, whatever the other
    one does; [swap] is the order in which their effects land. The result
    rejects as soon as one of them rejects. *)
Definition promise_all2 {A B} (swap : bool) (a : Async A) (b : Async B) : Async (A * B) :=
  fun s =>
    if swap then
      let '(rb, s1) := b s in
      let '(ra, s2) := a s1 in
      match ra, rb with
      | Resolved x, Resolved y => (Resolved (x, y), s2)
      | Rejected r, _ => (Rejected r, s2)
      | _, Rejected r => (Rejected r, s2)
      end
    else
      let '(ra, s1) := a s in
      let '(rb, s2) := b s1 in
      match ra, rb with
      | Resolved x, Resolved y => (Resolved (x, y), s2)
      | Rejected r, _ => (Rejected r, s2)
      | _, Rejected r => (Rejected r, s2)
      end.

(** ** Derivative generator ([processImage]) *)

(** [await sharp(input).metadata()]. *)
Definition sharp_metadata_call (w : World) (input : Buffer) : Async Metadata :=
  fun s =>
    match sharp_metadata w input with
    | Some md => (Resolved md, record (SharpMetadata input) s)
    | None => (Rejected "Input buffer contains unsupported image format",
               record (SharpMetadata input) s)
    end.

(** [await sharp(input).rotate().resize(width, height, { fit: 'inside',
    withoutEnlargement: true }).webp({ quality, effort }).toBuffer()]. *)
Definition sharp_webp_call (w : World) (input : Buffer) (width height quality effort : Z)
  : Async Buffer :=
  fun s =>
    match sharp_webp w input width height quality effort with
    | Some out => (Resolved out, record (SharpEncode width height quality effort) s)
    | None => (Rejected "sharp: encoding failed",
               record (SharpEncode width height quality effort) s)
    end.

Definition processImage (w : World) (inputBuffer : Buffer) : Async ProcessedImage :=
  let env := process_env w in
  let uniqueId := uuidv4 w in
  let filename := uniqueId +:+ ".webp" in
  metadata <- sharp_metadata_call w inputBuffer ;;
  let originalWidth := number_or (md_width metadata) 1920 in
  let originalHeight := number_or (md_height metadata) 1080 in
  let previewWidth := Math_min (PREVIEW_WIDTH env) originalWidth in
  let previewHeight := scaledHeight previewWidth originalWidth originalHeight in
  previewBuffer <- sharp_webp_call w inputBuffer previewWidth previewHeight
                     (PREVIEW_QUALITY env) 6 ;;
  let fullWidth := Math_min (FULL_WIDTH env) originalWidth in
  let fullHeight := scaledHeight fullWidth originalWidth originalHeight in
  fullBuffer <- sharp_webp_call w inputBuffer fullWidth fullHeight
                  (FULL_QUALITY env) 4 ;;
  ret {| preview := {| d_buffer := previewBuffer; d_width := previewWidth;
                       d_height := previewHeight;
                       d_size := Z.of_nat (length previewBuffer) |};
         full := {| d_buffer := fullBuffer; d_width := fullWidth;
                    d_height := fullHeight;
                    d_size := Z.of_nat (length fullBuffer) |};
         filename := filename;
         format := "webp" |}.

(** ** Storage helpers ([supabase.ts]) *)

(** [getSupabaseAdmin()]: throws when the service role key is missing. *)
Definition getSupabaseAdmin (w : World) : Async unit :=
  if falsy (env_SUPABASE_SERVICE_ROLE_KEY (process_env w)) then
    throw "Missing SUPABASE_SERVICE_ROLE_KEY environment variable"
  else ret tt.

(** [supabase.storage.from(STORAGE_BUCKET).upload(path, file,
    { contentType, upsert: false })]: the client's [error], if any.  Without
    [upsert] an existing object is not overwritten. *)
Definition storage_upload (w : World) (path : string) (file : Buffer) (contentType : string)
  : Async (option string) :=
  fun s =>
    match storage_upload_fault w path with
    | Some e => (Resolved (Some e), record (StorageUpload path false) s)
    | None =>
        match bucket s !! path with
        | Some _ => (Resolved (Some "The resource already exists"),
                     record (StorageUpload path false) s)
        | None =>
            (Resolved None,
             record (StorageUpload path true)
               {| bucket := <[path := {| obj_body := file; obj_contentType := contentType |}]>
                              (bucket s);
                  images := images s; log := log s |})
        end
    end.

(** [supabase.storage.from(STORAGE_BUCKET).remove(paths)]. *)
Definition storage_remove (w : World) (paths : list string) : Async (option string) :=
  fun s =>
    match storage_remove_fault w paths with
    | Some e => (Resolved (Some e), record (StorageRemove paths false) s)
    | None =>
        (Resolved None,
         record (StorageRemove paths true)
           {| bucket := foldr delete (bucket s) paths;
              images := images s; log := log s |})
    end.

(** [supabase.storage.from(STORAGE_BUCKET).createSignedUrl(path, expiresIn)]:
    the signed URL, or [None] for an [error]. *)
Definition storage_createSignedUrl (w : World) (path : string) (expiresIn : Z)
  : Async (option string) :=
  fun s =>
    let r := storage_sign_result w path expiresIn in
    (Resolved r, record (StorageSign path expiresIn (bool_decide (is_Some r))) s).

Record OpResult := {
  op_success : bool;
  op_error : option string
}.

(** [expiresIn: number = 3600]. *)
Definition getSignedUrl (w : World) (path : string) (expiresIn : option Z)
  : Async (option string) :=
  let expiresIn := default 3600 expiresIn in
  _ <- getSupabaseAdmin w ;;
  r <- storage_createSignedUrl w path expiresIn ;;
  match r with
  | None => ret None
  | Some signedUrl => ret (Some signedUrl)
  end.

Definition uploadFile (w : World) (path : string) (file : Buffer) (contentType : string)
  : Async OpResult :=
  _ <- getSupabaseAdmin w ;;
  error <- storage_upload w path file contentType ;;
  match error with
  | Some msg => ret {| op_success := false; op_error := Some msg |}
  | None => ret {| op_success := true; op_error := None |}
  end.

Definition deleteFiles (w : World) (paths : list string) : Async OpResult :=
  _ <- getSupabaseAdmin w ;;
  error <- storage_remove w paths ;;
  match error with
  | Some msg => ret {| op_success := false; op_error := Some msg |}
  | None => ret {| op_success := true; op_error := None |}
  end.

(** ** Image repository ([db.ts]) *)

(** [supabase.from('images').insert({...}).select('*').single()]: the row
    as stored, with the id and timestamps the database fills in, or [None]
    for an [error].  [id] is the primary key of the table. *)
Definition db_insert_image (w : World)
    (user_id filename : string) (original_filename : string)
    (preview_path full_path : string) (file_size_preview file_size_full : Z)
    (mime_type : string) (width height : Z) : Async (option Image) :=
  fun s =>
    let row :=
      {| img_id := db_uuid w; img_user_id := user_id; img_filename := filename;
         img_original_filename := Some original_filename;
         img_preview_path := preview_path; img_full_path := full_path;
         img_file_size_preview := Some file_size_preview;
         img_file_size_full := Some file_size_full;
         img_mime_type := Some mime_type;
         img_width := Some width; img_height := Some height;
         img_created_at := db_now w; img_updated_at := db_now w |} in
    match db_insert_fault w with
    | Some _ => (Resolved None, record (DbInsert false) s)
    | None =>
        if bool_decide (db_uuid w ∈ img_id <$> images s) then
          (Resolved None, record (DbInsert false) s)
        else
          (Resolved (Some row),
           record (DbInsert true)
             {| bucket := bucket s; images := images s ++ [row]; log := log s |})
    end.

Definition saveImageMetadata (w : World)
    (userId filename originalFilename previewPath fullPath : string)
    (previewSize fullSize : Z) (mimeType : string) (width height : Z)
  : Async (option Image) :=
  _ <- getSupabaseAdmin w ;;
  r <- db_insert_image w userId filename originalFilename previewPath fullPath
         previewSize fullSize mimeType width height ;;
  match r with
  | None => ret None
  | Some data => ret (Some data)
  end.

(** The filter [.eq('id', imageId).eq('user_id', userId)]. *)
Definition owned_by (imageId userId : string) (img : Image) : bool :=
  bool_decide (img_id img = imageId) && bool_decide (img_user_id img = userId).

(** [.select(...).eq(...).eq(...).single()]: the one matching row; it is an
    [error] when the backend fails and when the rows matched are not
    exactly one. *)
Definition db_select_single (w : World) (imageId userId : string) : Async (option Image) :=
  fun s =>
    match db_select_fault w with
    | Some _ => (Resolved None, record (DbSelect false) s)
    | None =>
        match filter (fun img => owned_by imageId userId img = true) (images s) with
        | [row] => (Resolved (Some row), record (DbSelect true) s)
        | _ => (Resolved None, record (DbSelect false) s)
        end
    end.

(** [.delete().eq('id', imageId).eq('user_id', userId)]: the client's
    [error], if any. *)
Definition db_delete_where (w : World) (imageId userId : string) : Async (option string) :=
  fun s =>
    match db_delete_fault w with
    | Some e => (Resolved (Some e), record (DbDelete false) s)
    | None =>
        (Resolved None,
         record (DbDelete true)
           {| bucket := bucket s;
              images := filter (fun img => owned_by imageId userId img = false) (images s);
              log := log s |})
    end.

Definition deleteImage (w : World) (imageId userId : string) : Async (option StoragePaths) :=
  _ <- getSupabaseAdmin w ;;
  image <- db_select_single w imageId userId ;;
  match image with
  | None => ret None
  | Some image =>
      deleteError <- db_delete_where w imageId userId ;;
      match deleteError with
      | Some _ => ret None
      | None => ret (Some {| previewPath := img_preview_path image;
                             fullPath := img_full_path image |})
      end
  end.

(** ** Rate limiting ([formatRateLimitError]) *)

(** [Math.ceil(a / b)] for a positive divisor. *)
Definition ceil_div (a b : Z) : Z := - ((- a) / b).

Definition formatRateLimitError (msBeforeNext : Z) : string :=
  let seconds := ceil_div msBeforeNext 1000 in
  if seconds <? 60 then
    "Too many requests. Please try again in " +:+ pretty seconds +:+ " seconds."
  else
    let minutes := ceil_div seconds 60 in
    "Too many requests. Please try again in " +:+ pretty minutes +:+ " minute"
      +:+ (if 1 <? minutes then "s" else "") +:+ ".".

(** ** The upload route ([POST /api/images]) *)

Definition request_formData (request : Request) : Async (option File) :=
  match req_formData request with
  | FormRejects => throw "Failed to parse body as FormData."
  | FormWithout => ret None
  | FormWith file => ret (Some file)
  end.

Definition POST_body (w : World) (request : Request) : Async ApiResponse :=
  match req_session request with
  | None => ret (failure 401 "Unauthorized")
  | Some session =>
  let rateLimitResult := req_rateLimit request in
  if negb (rl_success rateLimitResult) then
    ret (failure 429 (formatRateLimitError (rl_msBeforeNext rateLimitResult)))
  else
  file <- request_formData request ;;
  match file with
  | None => ret (failure 400 "No file provided")
  | Some file =>
  let validation := validateImageFile (process_env w) file in
  if negb (valid validation) then
    ret {| status := 400; success := false; error := validation_error validation;
           data := None; message := None |}
  else
  let buffer := file_bytes file in
  processed <- processImage w buffer ;;
  let paths := generateStoragePaths (userId session) (filename processed) in
  uploads <- promise_all2 (full_upload_lands_first w)
               (uploadFile w (previewPath paths) (d_buffer (preview processed)) "image/webp")
               (uploadFile w (fullPath paths) (d_buffer (full processed)) "image/webp") ;;
  let previewUpload := fst uploads in
  let fullUpload := snd uploads in
  if negb (op_success previewUpload) || negb (op_success fullUpload) then
    ret (failure 500 "Failed to upload image to storage")
  else
  savedImage <- saveImageMetadata w (userId session) (filename processed) (file_name file)
                  (previewPath paths) (fullPath paths)
                  (d_size (preview processed)) (d_size (full processed))
                  "image/webp" (d_width (full processed)) (d_height (full processed)) ;;
  match savedImage with
  | None => ret (failure 500 "Failed to save image metadata")
  | Some savedImage =>
  previewSigned <- getSignedUrl w (previewPath paths) None ;;
  let previewUrl := string_or previewSigned "" in
  fullSigned <- getSignedUrl w (fullPath paths) None ;;
  let fullUrl := string_or fullSigned "" in
  let imageWithUrls :=
    {| image := savedImage; preview_url := previewUrl; full_url := fullUrl |} in
  ret {| status := 200; success := true; error := None; data := Some imageWithUrls;
         message := Some "Image uploaded successfully" |}
  end
  end
  end.

Definition POST (w : World) (request : Request) : State -> ApiResponse * State :=
  try_catch (POST_body w request) (fun _ => failure 500 "Failed to upload image").

(** ** The single-image route ([DELETE /api/images/[id]]) *)

Definition DELETE_body (w : World) (session : option JWTPayload) (id : string)
  : Async ApiResponse :=
  match session with
  | None => ret (failure 401 "Unauthorized")
  | Some session =>
  deletedPaths <- deleteImage w id (userId session) ;;
  match deletedPaths with
  | None => ret (failure 404 "Image not found or already deleted")
  | Some deletedPaths =>
  _ <- deleteFiles w [previewPath deletedPaths; fullPath deletedPaths] ;;
  ret {| status := 200; success := true; error := None; data := None;
         message := Some "Image deleted successfully" |}
  end
  end.

Definition DELETE (w : World) (session : option JWTPayload) (id : string)
  : State -> ApiResponse * State :=
  try_catch (DELETE_body w session id) (fun _ => failure 500 "Failed to delete image").

(** ** Vocabulary of the properties *)

(** The events a run added to the log. *)
Definition new_events (s s' : State) : list Event := drop (length (log s)) (log s').

(** [e1] occurs before [e2] in [l]. *)
Definition precedes (e1 e2 : Event) (l : list Event) : Prop :=
  exists l1 l2 l3, l = l1 ++ e1 :: l2 ++ e2 :: l3.

(** The request is authenticated, within its rate limit, carries [file], and
    [file] passes validation: the run gets as far as [processImage]. *)
Definition accepted (w : World) (request : Request) (session : JWTPayload) (file : File)
  : Prop :=
  req_session request = Some session /\
  rl_success (req_rateLimit request) = true /\
  req_formData request = FormWith file /\
  valid (validateImageFile (process_env w) file) = true.

(** The paths the route plans for a session. *)
Definition planned_paths (w : World) (session : JWTPayload) : StoragePaths :=
  generateStoragePaths (userId session) (uuidv4 w +:+ ".webp").

(** The bucket holds under [path] an object of the recorded size and
    type. *)
Definition stored_as (s : State) (path : string) (size : option Z) (mime : option string)
  : Prop :=
  exists o,
    bucket s !! path = Some o /\
    size = Some (Z.of_nat (length (obj_body o))) /\
    mime = Some (obj_contentType o).

(** A deletion of [path] was attempted during the run. *)
Definition deletion_attempted (path : string) (l : list Event) : Prop :=
  exists paths ok, StorageRemove paths ok ∈ l /\ path ∈ paths.

(** The dimensions [processImage] records for an original of the given
    size. *)
Definition preview_dims (env : ProcessEnv) (originalWidth originalHeight : Z) : Z * Z :=
  let previewWidth := Math_min (PREVIEW_WIDTH env) originalWidth in
  (previewWidth, scaledHeight previewWidth originalWidth originalHeight).

Definition full_dims (env : ProcessEnv) (originalWidth originalHeight : Z) : Z * Z :=
  let fullWidth := Math_min (FULL_WIDTH env) originalWidth in
  (fullWidth, scaledHeight fullWidth originalWidth originalHeight).

Definition dims (d : Derivative) : Z * Z := (d_width d, d_height d).

(** The model of double arithmetic and the reference operations give the
    same recorded height. *)
Definition agrees_with_reference (tw W H : Z) : bool :=
  bool_decide (reference_scale tw W H = Some (scaledHeight tw W H)).

Definition grid (lo n step : Z) : list Z :=
  (fun i => lo + step * Z.of_nat i) <$> seq 0 (Z.to_nat n).

(** The derivatives are recorded as if the original were 1920x1080 whenever
    the codec leaves out the width or the height. *)
Definition default_size_substituted (w : World) (input : Buffer) (s : State) : Prop :=
  forall md,
    sharp_metadata w input = Some md ->
    md_width md = None \/ md_height md = None ->
    exists p s',
      processImage w input s = (Resolved p, s') /\
      dims (preview p) = preview_dims (process_env w) 1920 1080 /\
      dims (full p) = full_dims (process_env w) 1920 1080.

(** Compensation after a failed metadata insert: both uploaded objects are
    the target of a deletion attempt. *)
Definition compensates_metadata_failure (w : World) (request : Request) (s : State)
  : Prop :=
  forall session,
    req_session request = Some session ->
    let paths := planned_paths w session in
    let evs := new_events s (snd (POST w request s)) in
    StorageUpload (previewPath paths) true ∈ evs ->
    StorageUpload (fullPath paths) true ∈ evs ->
    DbInsert false ∈ evs ->
    deletion_attempted (previewPath paths) evs /\
    deletion_attempted (fullPath paths) evs.

(** [a] and [b] are the two planned paths, in some order. *)
Definition the_two_paths (paths : StoragePaths) (a b : string) : Prop :=
  (a = previewPath paths /\ b = fullPath paths) \/
  (a = fullPath paths /\ b = previewPath paths).

(** Compensation after a partial upload: the object whose upload succeeded
    is the target of a deletion attempt. *)
Definition compensates_partial_upload (w : World) (request : Request) (s : State)
  : Prop :=
  forall session a b,
    req_session request = Some session ->
    the_two_paths (planned_paths w session) a b ->
    let evs := new_events s (snd (POST w request s)) in
    StorageUpload a true ∈ evs ->
    StorageUpload b false ∈ evs ->
    deletion_attempted a evs.

(** The response to a run whose input cannot be decoded differs from the
    response to a run in which the derivatives were generated. *)
Definition processing_error_distinct
    (w : World) (request : Request) (s : State)
    (w' : World) (request' : Request) (s' : State) : Prop :=
  forall session file session' file' p s1,
    accepted w request session file ->
    sharp_metadata w (file_bytes file) = None ->
    accepted w' request' session' file' ->
    processImage w' (file_bytes file') s' = (Resolved p, s1) ->
    fst (POST w request s) <> fst (POST w' request' s').

(** ** Sample worlds

    Concrete collaborators, to run the routes on. *)

Definition sample_world (md : Buffer -> option Metadata)
    (upload_fault : string -> option string) (insert_fault : option string)
    (sign : string -> Z -> option string) (key : option string) : World :=
  {| process_env :=
       {| env_PREVIEW_WIDTH := None; env_PREVIEW_QUALITY := None;
          env_FULL_WIDTH := None; env_FULL_QUALITY := None;
          env_MAX_FILE_SIZE_MB := None;
          env_SUPABASE_SERVICE_ROLE_KEY := key |};
     sharp_metadata := md;
     sharp_webp := fun _ width height _ _ => Some [Byte.x52; Byte.x49; Byte.x46; Byte.x46];
     uuidv4 := "3f2a";
     storage_upload_fault := upload_fault;
     storage_remove_fault := fun _ => None;
     storage_sign_result := sign;
     full_upload_lands_first := false;
     db_insert_fault := insert_fault;
     db_select_fault := None;
     db_delete_fault := None;
     db_uuid := "img-1";
     db_now := "2024-01-01T00:00:00Z" |}.

Definition reports (width height : option Z) : Buffer -> option Metadata :=
  fun _ => Some {| md_width := width; md_height := height; md_format := Some "jpeg" |}.

Definition signs : string -> Z -> option string :=
  fun path _ => Some ("https://signed/" +:+ path).

Definition the_key : option string := Some "service-role-key".

(** Everything works; the original is 4000x3000. *)
Definition world_ok : World :=
  sample_world (reports (Some 4000) (Some 3000)) (fun _ => None) None signs the_key.

(** The database refuses the insert. *)
Definition world_insert_fails : World :=
  sample_world (reports (Some 4000) (Some 3000)) (fun _ => None)
    (Some "insert failed") signs the_key.

(** The store refuses the full derivative. *)
Definition world_full_upload_fails : World :=
  sample_world (reports (Some 4000) (Some 3000))
    (fun path => if bool_decide (path = "u1/full/3f2a.webp") then Some "upload failed" else None)
    None signs the_key.

(** The codec cannot decode the input. *)
Definition world_undecodable : World :=
  sample_world (fun _ => None) (fun _ => None) None signs the_key.

(** The service role key is not configured. *)
Definition world_no_key : World :=
  sample_world (reports (Some 4000) (Some 3000)) (fun _ => None) None signs None.

(** The codec reports a height of 500 and no width. *)
Definition world_height_only : World :=
  sample_world (reports None (Some 500)) (fun _ => None) None signs the_key.

(** The codec reports no dimensions. *)
Definition world_no_dims : World :=
  sample_world (reports None None) (fun _ => None) None signs the_key.

(** The store signs nothing. *)
Definition world_sign_fails : World :=
  sample_world (reports (Some 4000) (Some 3000)) (fun _ => None) None (fun _ _ => None) the_key.

Definition empty_state : State := {| bucket := ∅; images := []; log := [] |}.

Definition jpeg_file : File :=
  {| file_name := "holiday.jpg"; file_type := "image/jpeg"; file_size := 8000000;
     file_bytes := [Byte.xff; Byte.xd8; Byte.xff] |}.

Definition pdf_file : File :=
  {| file_name := "doc.pdf"; file_type := "application/pdf"; file_size := 1000;
     file_bytes := [Byte.x25; Byte.x50; Byte.x44; Byte.x46] |}.

Definition empty_png_file : File :=
  {| file_name := "empty.png"; file_type := "image/png"; file_size := 0; file_bytes := [] |}.

Definition user1 : JWTPayload := {| userId := "u1"; email := "u1@example.org"; role := "user" |}.

Definition request_with (file : File) : Request :=
  {| req_session := Some user1;
     req_rateLimit := {| rl_success := true; rl_remainingPoints := 19; rl_msBeforeNext := 0 |};
     req_formData := FormWith file |}.

(** A stored row owned by [u1]. *)
Definition row1 : Image :=
  {| img_id := "img-0"; img_user_id := "u1"; img_filename := "aa.webp";
     img_original_filename := Some "a.jpg";
     img_preview_path := "u1/previews/aa.webp"; img_full_path := "u1/full/aa.webp";
     img_file_size_preview := Some 4; img_file_size_full := Some 4;
     img_mime_type := Some "image/webp"; img_width := Some 2000; img_height := Some 1500;
     img_created_at := "2024-01-01T00:00:00Z"; img_updated_at := "2024-01-01T00:00:00Z" |}.

Definition state_with_row1 : State := {| bucket := ∅; images := [row1]; log := [] |}.

(** ** Reading images ([getImageById], [getUserImages], the GET routes) *)

Definition getImageById (w : World) (imageId userId : string) : Async (option Image) :=
  _ <- getSupabaseAdmin w ;;
  r <- db_select_single w imageId userId ;;
  match r with
  | None => ret None
  | Some data => ret (Some data)
  end.

(** [GET /api/images/[id]]. *)
Definition GET_image_body (w : World) (session : option JWTPayload) (id : string)
  : Async ApiResponse :=
  match session with
  | None => ret (failure 401 "Unauthorized")
  | Some session =>
  image <- getImageById w id (userId session) ;;
  match image with
  | None => ret (failure 404 "Image not found")
  | Some image =>
  previewSigned <- getSignedUrl w (img_preview_path image) None ;;
  let previewUrl := string_or previewSigned "" in
  fullSigned <- getSignedUrl w (img_full_path image) None ;;
  let fullUrl := string_or fullSigned "" in
  let imageWithUrls :=
    {| image := image; preview_url := previewUrl; full_url := fullUrl |} in
  ret {| status := 200; success := true; error := None; data := Some imageWithUrls;
         message := None |}
  end
  end.

Definition GET_image (w : World) (session : option JWTPayload) (id : string)
  : State -> ApiResponse * State :=
  try_catch (GET_image_body w session id) (fun _ => failure 500 "Failed to fetch image").

(** What the database does with the list queries of [getUserImages], beyond
    the faults of [World]: the order it gives to rows sorted by
    [created_at] descending, and its answer to a window that is empty or
    negative ([to < from]) or that starts after the last row; the last two
    are either refused (a fault) or answered with no rows. *)
Record ListBackend := {
  db_count_fault : option string;
  db_list_fault : option string;
  db_order_created_at_desc : list Image -> list Image;
  db_bad_window_fault : option string;
  db_window_past_end_fault : option string
}.

(** [.select('*', { count: 'exact', head: true }).eq('user_id', userId)]:
    the [count], null for an [error]. *)
Definition db_count_images (b : ListBackend) (userId : string) : Async (option Z) :=
  fun s =>
    match db_count_fault b with
    | Some _ => (Resolved None, record (DbSelect false) s)
    | None =>
        (Resolved (Some (Z.of_nat (length
            (filter (fun img => img_user_id img = userId) (images s))))),
         record (DbSelect true) s)
    end.

(** [.select('*').eq('user_id', userId).order('created_at',
    { ascending: false }).range(from, to)]: the rows of the window, [None]
    for an [error]. *)
Definition db_select_range (b : ListBackend) (userId : string) (from to : Z)
  : Async (option (list Image)) :=
  fun s =>
    let rows :=
      db_order_created_at_desc b
        (filter (fun img => img_user_id img = userId) (images s)) in
    let answer :=
      match db_list_fault b with
      | Some _ => None
      | None =>
          if (from <? 0) || (to <? from) then
            match db_bad_window_fault b with Some _ => None | None => Some [] end
          else if Z.of_nat (length rows) <? from then
            match db_window_past_end_fault b with Some _ => None | None => Some [] end
          else
            Some (take (Z.to_nat (to - from + 1)) (drop (Z.to_nat from) rows))
      end in
    (Resolved answer, record (DbSelect (bool_decide (is_Some answer))) s).

(** [page: number = 1, limit: number = 20]; the numbers are integers. *)
Definition getUserImages (w : World) (b : ListBackend) (userId : string)
    (page limit : option Z) : Async (list Image * Z) :=
  let page := default 1 page in
  let limit := default 20 limit in
  _ <- getSupabaseAdmin w ;;
  let offset := (page - 1) * limit in
  count <- db_count_images b userId ;;
  r <- db_select_range b userId offset (offset + limit - 1) ;;
  match r with
  | None => ret ([], 0)
  | Some data => ret (data, number_or count 0)
  end.

Record PaginatedResponse := {
  p_status : Z;
  p_success : bool;
  p_error : option string;
  p_data : list ImageWithUrls;
  p_page : Z;
  p_limit : Z;
  p_total : Z;
  p_hasMore : bool
}.

Definition paginated_failure (st : Z) (msg : string) : PaginatedResponse :=
  {| p_status := st; p_success := false; p_error := Some msg; p_data := [];
     p_page := 1; p_limit := 20; p_total := 0; p_hasMore := false |}.

(** [await Promise.all(images.map(async (image) => ...))]: the two signed
    URLs of every image.  The requests of different images run
    concurrently; they only read, and the model issues them in list
    order. *)
Fixpoint sign_images (w : World) (images : list Image) : Async (list ImageWithUrls) :=
  match images with
  | [] => ret []
  | image :: rest =>
      previewSigned <- getSignedUrl w (img_preview_path image) None ;;
      fullSigned <- getSignedUrl w (img_full_path image) None ;;
      rest' <- sign_images w rest ;;
      ret ({| image := image;
              preview_url := string_or previewSigned "";
              full_url := string_or fullSigned "" |} :: rest')
  end.

(** [GET /api/images]; [page] and [limit] are the integers the two query
    parameters parse to, [None] when absent or empty. *)
Definition GET_images_body (w : World) (b : ListBackend) (session : option JWTPayload)
    (page limit : option Z) : Async PaginatedResponse :=
  match session with
  | None => ret (paginated_failure 401 "Unauthorized")
  | Some session =>
  let page := parseInt_env page 1 in
  let limit := parseInt_env limit 20 in
  r <- getUserImages w b (userId session) (Some page) (Some limit) ;;
  let images := fst r in
  let total := snd r in
  imagesWithUrls <- sign_images w images ;;
  ret {| p_status := 200; p_success := true; p_error := None; p_data := imagesWithUrls;
         p_page := page; p_limit := limit; p_total := total;
         p_hasMore := page * limit <? total |}
  end.

Definition GET_images (w : World) (b : ListBackend) (session : option JWTPayload)
    (page limit : option Z) : State -> PaginatedResponse * State :=
  try_catch (GET_images_body w b session page limit)
    (fun _ => paginated_failure 500 "Failed to fetch images").

(** A backend that answers every list query, in table order reversed. *)
Definition list_backend_ok : ListBackend :=
  {| db_count_fault := None; db_list_fault := None;
     db_order_created_at_desc := @rev Image;
     db_bad_window_fault := Some "invalid range";
     db_window_past_end_fault := None |}.

(** ** Invite codes ([generateInviteCode]) *)

Definition invite_chars : string := "ABCDEFGHJKLMNPQRSTUVWXYZ23456789".

(** [chars[n]]: the character at index [n], [undefined] outside the string;
    appended to a string, [undefined] reads "undefined". *)
Definition char_at (chars : string) (n : nat) : string :=
  match String.get n chars with
  | Some c => String c EmptyString
  | None => "undefined"
  end.

(** [array] holds the bytes [crypto.getRandomValues] wrote into the
    [Uint8Array(8)]; an index outside a typed array reads [undefined], and
    [undefined % 32] is [NaN]. *)
Definition generateInviteCode (array : list Byte.byte) : string :=
  let chars := invite_chars in
  foldl (fun code i =>
           code +:+ match array !! i with
                    | Some b => char_at chars (Byte.to_nat b mod String.length chars)
                    | None => "undefined"
                    end)
        EmptyString (seq 0 8).

(** Every value a byte can take. *)
Definition all_bytes : list Byte.byte :=
  omap (fun n => Byte.of_nat n) (seq 0 256).

(** ** Input sanitising ([sanitizeString]) *)

(** A JavaScript string: its UTF-16 code units. *)
Definition JsString := list N.

(** The code units [String.prototype.trim] strips: WhiteSpace and
    LineTerminator of ECMAScript. *)
Definition isWhiteSpace (c : N) : bool :=
  (bool_decide (c ∈ [9; 10; 11; 12; 13; 32; 160; 5760; 8232; 8233; 8239; 8287; 12288;
                     65279]%N)
   || ((8192 <=? c) && (c <=? 8202)))%N.

Fixpoint trimStart (s : JsString) : JsString :=
  match s with
  | c :: rest => if isWhiteSpace c then trimStart rest else s
  | [] => []
  end.

Definition trim (s : JsString) : JsString :=
  reverse (trimStart (reverse (trimStart s))).

(** [str.replace(/[<>]/g, '')]. *)
Definition remove_angle_brackets (s : JsString) : JsString :=
  filter (fun c => c <> 60%N /\ c <> 62%N) s.

Definition sanitizeString (str : JsString) : JsString :=
  take 1000 (remove_angle_brackets (trim str)).

(** ** Vocabulary of the list route *)

(** The rows of a user as the database orders them. *)
Definition user_rows (b : ListBackend) (userId : string) (s : State) : list Image :=
  db_order_created_at_desc b (filter (fun img => img_user_id img = userId) (images s)).

(** The answer of [db_select_range] to the window [from..to]. *)
Definition window_answer (b : ListBackend) (rows : list Image) (from to : Z)
  : option (list Image) :=
  match db_list_fault b with
  | Some _ => None
  | None =>
      if (from <? 0) || (to <? from) then
        match db_bad_window_fault b with Some _ => None | None => Some [] end
      else if Z.of_nat (length rows) <? from then
        match db_window_past_end_fault b with Some _ => None | None => Some [] end
      else
        Some (take (Z.to_nat (to - from + 1)) (drop (Z.to_nat from) rows))
  end.

(** The image with the signed URLs the store answers, an empty string for a
    request it refuses. *)
Definition with_urls (w : World) (img : Image) : ImageWithUrls :=
  {| image := img;
     preview_url := string_or (storage_sign_result w (img_preview_path img) 3600) "";
     full_url := string_or (storage_sign_result w (img_full_path img) 3600) "" |}.

(** ** Further sample data *)

(** The store refuses to remove objects. *)
Definition world_remove_fails : World :=
  {| process_env := process_env world_ok;
     sharp_metadata := sharp_metadata world_ok;
     sharp_webp := sharp_webp world_ok;
     uuidv4 := uuidv4 world_ok;
     storage_upload_fault := storage_upload_fault world_ok;
     storage_remove_fault := fun _ => Some "remove failed";
     storage_sign_result := storage_sign_result world_ok;
     full_upload_lands_first := full_upload_lands_first world_ok;
     db_insert_fault := db_insert_fault world_ok;
     db_select_fault := db_select_fault world_ok;
     db_delete_fault := db_delete_fault world_ok;
     db_uuid := db_uuid world_ok;
     db_now := db_now world_ok |}.

(** A row of [u2] and a second row of [u1]. *)
Definition row2 : Image :=
  {| img_id := "img-2"; img_user_id := "u2"; img_filename := "bb.webp";
     img_original_filename := Some "b.png";
     img_preview_path := "u2/previews/bb.webp"; img_full_path := "u2/full/bb.webp";
     img_file_size_preview := Some 4; img_file_size_full := Some 4;
     img_mime_type := Some "image/webp"; img_width := Some 800; img_height := Some 600;
     img_created_at := "2024-01-02T00:00:00Z"; img_updated_at := "2024-01-02T00:00:00Z" |}.

Definition row3 : Image :=
  {| img_id := "img-3"; img_user_id := "u1"; img_filename := "cc.webp";
     img_original_filename := Some "c.jpg";
     img_preview_path := "u1/previews/cc.webp"; img_full_path := "u1/full/cc.webp";
     img_file_size_preview := Some 4; img_file_size_full := Some 4;
     img_mime_type := Some "image/webp"; img_width := Some 1200; img_height := Some 900;
     img_created_at := "2024-01-03T00:00:00Z"; img_updated_at := "2024-01-03T00:00:00Z" |}.

Definition webp_object : StoredObject :=
  {| obj_body := [Byte.x52; Byte.x49; Byte.x46; Byte.x46]; obj_contentType := "image/webp" |}.

(** Three rows of two users, and the six objects they name. *)
Definition state_gallery : State :=
  {| bucket :=
       <["u1/previews/aa.webp" := webp_object]>
       (<["u1/full/aa.webp" := webp_object]>
       (<["u2/previews/bb.webp" := webp_object]>
       (<["u2/full/bb.webp" := webp_object]>
       (<["u1/previews/cc.webp" := webp_object]>
       (<["u1/full/cc.webp" := webp_object]> ∅)))));
     images := [row1; row2; row3];
     log := [] |}.

(** A backend whose count query and whose list query fail. *)
Definition list_backend_down : ListBackend :=
  {| db_count_fault := Some "count failed"; db_list_fault := Some "select failed";
     db_order_created_at_desc := @rev Image;
     db_bad_window_fault := Some "invalid range";
     db_window_past_end_fault := None |}.

Definition sample_random_bytes : list Byte.byte :=
  [Byte.x00; Byte.x21; Byte.x47; Byte.x7f; Byte.x80; Byte.xa5; Byte.xfe; Byte.xff].

(** The database refuses every query on [images]. *)
Definition world_db_down : World :=
  {| process_env := process_env world_ok;
     sharp_metadata := sharp_metadata world_ok;
     sharp_webp := sharp_webp world_ok;
     uuidv4 := uuidv4 world_ok;
     storage_upload_fault := storage_upload_fault world_ok;
     storage_remove_fault := storage_remove_fault world_ok;
     storage_sign_result := storage_sign_result world_ok;
     full_upload_lands_first := full_upload_lands_first world_ok;
     db_insert_fault := Some "database unavailable";
     db_select_fault := Some "database unavailable";
     db_delete_fault := Some "database unavailable";
     db_uuid := db_uuid world_ok;
     db_now := db_now world_ok |}.

(** * Properties *)

(** ** Double arithmetic *)

(** The spec's scenario, 4000x3000 scaled to widths 300 and 2000, and the
    default size of [processImage]. *)
Example scaledHeight_4000x3000_preview : scaledHeight 300 4000 3000 = 225.
Proof. vm_compute. reflexivity. Qed.

Example scaledHeight_4000x3000_full : scaledHeight 2000 4000 3000 = 1500.
Proof. vm_compute. reflexivity. Qed.

Example scaledHeight_default_size : scaledHeight 300 1920 1080 = 169.
Proof. vm_compute. reflexivity. Qed.

(** The intermediate rounding is visible: 300 * 159 / 424 is exactly 112.5,
    the double product is just below it, and [Math.round] gives 112. *)
Example scaledHeight_424x159 : scaledHeight 300 424 159 = 112.
Proof. vm_compute. reflexivity. Qed.

Example reference_424x159 : reference_scale 300 424 159 = Some 112.
Proof. vm_compute. reflexivity. Qed.

(** The model agrees with the reference operations of [SpecFloat] on a grid
    of sizes, for both target widths. *)
Example scaledHeight_agrees_with_reference :
  forallb (fun W =>
     forallb (fun H => agrees_with_reference (Z.min 300 W) W H
                       && agrees_with_reference (Z.min 2000 W) W H)
       (grid 1 16 211))
    (424 :: grid 63 24 173) = true.
Proof. vm_compute. reflexivity. Qed.

(** *** Accuracy of the rounding *)
Section Rounding.
Local Open Scope Q_scope.

Lemma Qdiv_le_cross a b c d :
  0 < b -> 0 < d -> a * d <= c * b -> a / b <= c / d.
Proof.
  intros Hb Hd H.
  apply Qle_shift_div_l; [exact Hd|].
  assert (E : a / b * d == a * d / b) by (field; lra). rewrite E.
  apply Qle_shift_div_r; [exact Hb|exact H].
Qed.

Lemma Qdiv_lt_cross a b c d :
  0 < b -> 0 < d -> a * d < c * b -> a / b < c / d.
Proof.
  intros Hb Hd H.
  apply Qlt_shift_div_l; [exact Hd|].
  assert (E : a / b * d == a * d / b) by (field; lra). rewrite E.
  apply Qlt_shift_div_r; [exact Hb|exact H].
Qed.

Lemma pow2_pos (e : Z) : 0 < 2 ^ e.
Proof. apply Qpower_0_lt. reflexivity. Qed.

Lemma pow2_succ (e : Z) : 2 ^ (e + 1) == 2 * 2 ^ e.
Proof. rewrite Qpower_plus by discriminate. simpl (2 ^ 1). ring. Qed.

Lemma pow2_inject (n : Z) : (0 <= n)%Z -> inject_Z (2 ^ n) == 2 ^ n.
Proof. intros Hn. apply (Zpower_Qpower 2 n Hn). Qed.

Lemma pow2_sub (a b : Z) : 2 ^ (a - b) == 2 ^ a / 2 ^ b.
Proof. apply Qpower_minus. discriminate. Qed.

Lemma log2_bounds (n : Z) :
  (0 < n)%Z -> 2 ^ Z.log2 n <= inject_Z n /\ inject_Z n < 2 * 2 ^ Z.log2 n.
Proof.
  intros Hn. destruct (Z.log2_spec n Hn) as [Hlo Hhi].
  pose proof (Z.log2_nonneg n) as Hk.
  rewrite <- pow2_inject by exact Hk. split.
  - rewrite <- Zle_Qle. exact Hlo.
  - assert (E : 2 * inject_Z (2 ^ Z.log2 n) == inject_Z (2 ^ Z.succ (Z.log2 n))).
    { rewrite Z.pow_succ_r by exact Hk. rewrite inject_Z_mult. reflexivity. }
    rewrite E, <- Zlt_Qlt. exact Hhi.
Qed.

Lemma floor_log2_spec (q : Q) :
  0 < q -> 2 ^ floor_log2 q <= q /\ q < 2 ^ (floor_log2 q + 1).
Proof.
  intros Hq. unfold floor_log2.
  destruct q as [n d]. cbn [Qnum Qden].
  assert (Hn : (0 < n)%Z) by (unfold Qlt in Hq; cbn in Hq; lia).
  destruct (log2_bounds n Hn) as [Hn1 Hn2].
  destruct (log2_bounds (Zpos d) eq_refl) as [Hd1 Hd2].
  set (ln := Z.log2 n) in *. set (ld := Z.log2 (Z.pos d)) in *.
  pose proof (pow2_pos ln) as Pn. pose proof (pow2_pos ld) as Pd.
  assert (Hd0 : 0 < inject_Z (Z.pos d)) by (rewrite <- (Zlt_Qlt 0); lia).
  assert (Eq : n # d == inject_Z n / inject_Z (Z.pos d)) by apply Qmake_Qdiv.
  destruct (Qle_bool (2 ^ (ln - ld)) (n # d)) eqn:E.
  - apply Qle_bool_iff in E. split; [exact E|].
    rewrite pow2_succ, pow2_sub, Eq.
    assert (E2 : 2 * (2 ^ ln / 2 ^ ld) == (2 * 2 ^ ln) / 2 ^ ld) by (field; lra).
    rewrite E2. apply Qdiv_lt_cross; [exact Hd0|exact Pd|]. nra.
  - assert (E' : n # d < 2 ^ (ln - ld)).
    { apply Qnot_le_lt. intros H. apply Qle_bool_iff in H. congruence. }
    split.
    + replace (ln - ld - 1)%Z with (ln - (ld + 1))%Z by lia.
      rewrite pow2_sub, pow2_succ, Eq.
      apply Qdiv_le_cross; [lra|exact Hd0|]. nra.
    + replace (ln - ld - 1 + 1)%Z with (ln - ld)%Z by lia. exact E'.
Qed.

Lemma round_half_even_err (y : Q) :
  Qabs (inject_Z (round_half_even y) - y) <= 1 # 2.
Proof.
  unfold round_half_even.
  pose proof (Qfloor_le y) as Hlo. pose proof (Qlt_floor y) as Hhi.
  rewrite inject_Z_plus in Hhi. change (inject_Z 1) with 1 in Hhi.
  set (f := Qfloor y) in *.
  destruct (y - inject_Z f ?= 1 # 2) eqn:C.
  - apply Qeq_alt in C.
    destruct (Z.even f); [|rewrite inject_Z_plus; change (inject_Z 1) with 1];
      apply Qabs_Qle_condition; split; lra.
  - apply Qlt_alt in C. apply Qabs_Qle_condition; split; lra.
  - apply Qgt_alt in C. rewrite inject_Z_plus. change (inject_Z 1) with 1.
    apply Qabs_Qle_condition; split; lra.
Qed.

Lemma f64_round_gt0 (q : Q) : 0 < q -> f64_round q = f64_round_pos q.
Proof.
  intros Hq. unfold f64_round.
  replace (q ?= 0) with Gt; [reflexivity|]. symmetry. apply Qgt_alt. exact Hq.
Qed.

(** In the normal range a rounding moves a value by at most half a unit in
    the last place: a relative error of at most 2^-53. *)
Lemma f64_round_pos_err (q : Q) :
  2 ^ (-1022) <= q -> Qabs (f64_round_pos q - q) <= q * 2 ^ (-53).
Proof.
  intros Hn.
  assert (Hq : 0 < q) by (pose proof (pow2_pos (-1022)); lra).
  destruct (floor_log2_spec q Hq) as [Hlo Hhi].
  unfold f64_round_pos, ulp_exp. rewrite Qred_correct.
  set (k := floor_log2 q) in *.
  assert (Hk : (-1022 <= k)%Z).
  { assert (L : 2 ^ (-1022) < 2 ^ (k + 1)) by lra.
    apply Qpower_lt_compat_l_inv in L; [lia|reflexivity]. }
  rewrite Z.max_l by lia.
  pose proof (round_half_even_err (q / 2 ^ (k - 52))) as Herr.
  set (m := inject_Z (round_half_even (q / 2 ^ (k - 52)))) in *.
  assert (EE : 2 ^ (k - 52) == 2 ^ k * 2 ^ (-52)).
  { replace (k - 52)%Z with (k + -52)%Z by lia. apply Qpower_plus. discriminate. }
  pose proof (pow2_pos k) as Pk. pose proof (pow2_pos (k - 52)) as Pe.
  set (E := 2 ^ (k - 52)) in *. set (P := 2 ^ k) in *.
  assert (C52 : 2 ^ (-52) == 2 * 2 ^ (-53)) by reflexivity.
  pose proof (pow2_pos (-53)) as P53.
  set (u := 2 ^ (-53)) in *. rewrite C52 in EE.
  apply Qabs_Qle_condition in Herr. destruct Herr as [H1 H2].
  assert (Ey : q == q / E * E) by (field; lra).
  set (y := q / E) in *.
  apply Qabs_Qle_condition. split.
  - assert (0 <= (m - y + (1 # 2)) * E) by (apply Qmult_le_0_compat; lra).
    assert (0 <= (q - P) * u) by (apply Qmult_le_0_compat; lra).
    nra.
  - assert (0 <= ((1 # 2) - (m - y)) * E) by (apply Qmult_le_0_compat; lra).
    assert (0 <= (q - P) * u) by (apply Qmult_le_0_compat; lra).
    nra.
Qed.

End Rounding.

Section ScaledHeight.
Local Open Scope Q_scope.

Variables tw W H : Z.
Hypothesis Htw : (0 < tw <= W)%Z.
Hypothesis HW : (W < 2 ^ 31)%Z.
Hypothesis HH : (0 < H < 2 ^ 31)%Z.

Let TW := inject_Z tw.
Let WW := inject_Z W.
Let HQ := inject_Z H.
Let u := 2 ^ (-53).

Local Lemma TW_bounds : 1 <= TW /\ TW <= WW /\ WW <= 2147483648.
Proof.
  unfold TW, WW. repeat split.
  - change (inject_Z 1 <= inject_Z tw); rewrite <- Zle_Qle; lia.
  - change (inject_Z tw <= inject_Z W); rewrite <- Zle_Qle; lia.
  - change (inject_Z W <= inject_Z 2147483648); rewrite <- Zle_Qle; lia.
Qed.

Local Lemma HQ_bounds : 1 <= HQ /\ HQ <= 2147483648.
Proof.
  unfold HQ. split.
  - change (inject_Z 1 <= inject_Z H); rewrite <- Zle_Qle; lia.
  - change (inject_Z H <= inject_Z 2147483648); rewrite <- Zle_Qle; lia.
Qed.

Local Lemma u_bounds : 0 < u /\ u <= 1 # 9007199254740992.
Proof. split; [apply pow2_pos|]. apply Qle_bool_iff. reflexivity. Qed.

(** The double product is within a quarter of the exact scaled height. *)
Lemma scaled_product_close :
  Qabs (mul (div TW WW) HQ - TW * HQ / WW) <= 1 # 4.
Proof.
  destruct TW_bounds as (T1 & T2 & T3). destruct HQ_bounds as (H1 & H2).
  destruct u_bounds as (U1 & U2).
  set (t := TW / WW).
  assert (Et : t * WW == TW) by (unfold t; field; lra).
  assert (Ht1 : t <= 1) by (apply Qle_shift_div_r; lra).
  assert (Ht0 : 1 # 2147483648 <= t) by (apply Qle_shift_div_l; lra).
  assert (Hn1 : 2 ^ (-1022) <= t).
  { apply Qle_trans with (1 # 2147483648); [|exact Ht0].
    apply Qle_bool_iff. vm_compute. reflexivity. }
  unfold div. fold t. rewrite f64_round_gt0 by lra.
  pose proof (f64_round_pos_err t Hn1) as Ea. fold u in Ea.
  apply Qabs_Qle_condition in Ea. destruct Ea as [Ea1 Ea2].
  set (a := f64_round_pos t) in *.
  assert (Htu : 0 <= (1 - t) * u) by (apply Qmult_le_0_compat; lra).
  assert (Htu' : 0 <= t * u) by (apply Qmult_le_0_compat; lra).
  assert (Ha0 : 1 # 4294967296 <= a).
  { assert (0 <= (t - (1 # 2147483648)) * (1 - 2 * u)) by (apply Qmult_le_0_compat; lra).
    nra. }
  assert (HaH : 1 # 4294967296 <= a * HQ).
  { assert (0 <= (a - (1 # 4294967296)) * (HQ - 1)) by (apply Qmult_le_0_compat; lra).
    nra. }
  assert (Hn2 : 2 ^ (-1022) <= a * HQ).
  { apply Qle_trans with (1 # 4294967296); [|exact HaH].
    apply Qle_bool_iff. vm_compute. reflexivity. }
  unfold mul. rewrite f64_round_gt0 by lra.
  pose proof (f64_round_pos_err (a * HQ) Hn2) as Eb. fold u in Eb.
  apply Qabs_Qle_condition in Eb. destruct Eb as [Eb1 Eb2].
  set (b := f64_round_pos (a * HQ)) in *.
  assert (Ex : TW * HQ / WW == t * HQ) by (unfold t; field; lra).
  rewrite Ex.
  assert (A1 : 0 <= (u - (a - t)) * HQ) by (apply Qmult_le_0_compat; lra).
  assert (A2 : 0 <= (u + (a - t)) * HQ) by (apply Qmult_le_0_compat; lra).
  assert (A3 : 0 <= (2 - a) * HQ) by (apply Qmult_le_0_compat; lra).
  assert (A4 : 0 <= (2 * HQ - a * HQ) * u) by (apply Qmult_le_0_compat; lra).
  assert (A5 : 0 <= (2147483648 - HQ) * u) by (apply Qmult_le_0_compat; lra).
  assert (A6 : HQ * u <= 1 # 4194304) by nra.
  apply Qabs_Qle_condition. split; nra.
Qed.

(** The recorded height is the exact scaled height [tw * H / W] rounded
    down or up: it differs from it by less than one pixel. *)
Lemma scaledHeight_within_one :
  (Z.abs (scaledHeight tw W H * W - tw * H) < W)%Z.
Proof.
  pose proof scaled_product_close as Hc.
  destruct TW_bounds as (T1 & T2 & T3).
  apply Qabs_Qle_condition in Hc. destruct Hc as [Hc1 Hc2].
  unfold scaledHeight, Math_round. fold TW WW HQ.
  set (b := mul (div TW WW) HQ) in *.
  pose proof (Qfloor_le (b + (1 # 2))) as Hlo.
  pose proof (Qlt_floor (b + (1 # 2))) as Hhi.
  rewrite inject_Z_plus in Hhi. change (inject_Z 1) with 1 in Hhi.
  set (h := Qfloor (b + (1 # 2))) in *.
  assert (Ex : TW * HQ / WW * WW == TW * HQ) by (field; lra).
  set (x := TW * HQ / WW) in *.
  assert (B1 : 0 <= (inject_Z h - x + (3 # 4)) * WW) by (apply Qmult_le_0_compat; lra).
  assert (B2 : 0 <= (x + (3 # 4) - inject_Z h) * WW) by (apply Qmult_le_0_compat; lra).
  apply Z.abs_lt. split.
  - rewrite Zlt_Qlt, inject_Z_opp; unfold Z.sub; rewrite inject_Z_plus, inject_Z_opp, !inject_Z_mult.
    fold TW WW HQ. nra.
  - rewrite Zlt_Qlt; unfold Z.sub; rewrite inject_Z_plus, inject_Z_opp, !inject_Z_mult.
    fold TW WW HQ. nra.
Qed.

End ScaledHeight.

(** ** The path planner *)

Lemma append_prefix_inj (u a b : string) : u +:+ a = u +:+ b -> a = b.
Proof.
  induction u as [|c u IH]; cbn; intros E; [exact E|].
  injection E as E. exact (IH E).
Qed.

Lemma preview_full_differ (u f1 f2 : string) :
  previewPath (generateStoragePaths u f1) <> fullPath (generateStoragePaths u f2).
Proof. cbn. intros E. apply append_prefix_inj in E. discriminate E. Qed.

Lemma preview_full_differ_paths (u f1 f2 : string) :
  u +:+ "/previews/" +:+ f1 <> u +:+ "/full/" +:+ f2.
Proof. exact (preview_full_differ u f1 f2). Qed.

Lemma previewPath_inj (u f1 f2 : string) :
  previewPath (generateStoragePaths u f1) = previewPath (generateStoragePaths u f2) -> f1 = f2.
Proof.
  cbn. intros E. apply append_prefix_inj in E.
  exact (append_prefix_inj "/previews/" f1 f2 E).
Qed.

Lemma fullPath_inj (u f1 f2 : string) :
  fullPath (generateStoragePaths u f1) = fullPath (generateStoragePaths u f2) -> f1 = f2.
Proof.
  cbn. intros E. apply append_prefix_inj in E.
  exact (append_prefix_inj "/full/" f1 f2 E).
Qed.

(** C6. [generateStoragePaths] maps (ownerId, filename) to
    ownerId/previews/filename and ownerId/full/filename; equal inputs give
    equal paths; two distinct filenames of one owner give four pairwise
    distinct paths; and the preview and full paths of one call differ. *)
Theorem generateStoragePaths_planner (ownerId f1 f2 : string) :
  f1 <> f2 ->
  let p1 := generateStoragePaths ownerId f1 in
  let p2 := generateStoragePaths ownerId f2 in
  previewPath p1 = ownerId +:+ "/previews/" +:+ f1 /\
  fullPath p1 = ownerId +:+ "/full/" +:+ f1 /\
  (forall o o' f f', o = o' -> f = f' ->
     generateStoragePaths o f = generateStoragePaths o' f') /\
  previewPath p1 <> previewPath p2 /\
  fullPath p1 <> fullPath p2 /\
  previewPath p1 <> fullPath p2 /\
  fullPath p1 <> previewPath p2 /\
  previewPath p1 <> fullPath p1.
Proof.
  intros Hne p1 p2. subst p1 p2.
  split; [reflexivity|]. split; [reflexivity|].
  split; [intros o o' f f' -> ->; reflexivity|].
  split; [intros E; exact (Hne (previewPath_inj _ _ _ E))|].
  split; [intros E; exact (Hne (fullPath_inj _ _ _ E))|].
  split; [apply preview_full_differ|].
  split; [intros E; symmetry in E; exact (preview_full_differ _ _ _ E)|].
  apply preview_full_differ.
Qed.

Lemma generateStoragePaths_planner_witness :
  previewPath (generateStoragePaths "u1" "a.webp") = "u1/previews/a.webp" /\
  previewPath (generateStoragePaths "u1" "a.webp")
    <> previewPath (generateStoragePaths "u1" "b.webp").
Proof.
  pose proof (generateStoragePaths_planner "u1" "a.webp" "b.webp") as H.
  cbv zeta in H. destruct H as (H1 & _ & _ & H4 & _); [discriminate|].
  split; [exact H1|exact H4].
Defined.

(** ** Upload validation *)

Lemma validateImageFile_valid_iff (env : ProcessEnv) (file : File) :
  valid (validateImageFile env file) = true <->
  file_type file ∈ ALLOWED_MIME_TYPES /\ file_size file <= MAX_FILE_SIZE env.
Proof.
  unfold validateImageFile.
  destruct (bool_decide_reflect (file_type file ∈ ALLOWED_MIME_TYPES)) as [Hin|Hout]; cbn.
  - destruct (Z.ltb_spec (MAX_FILE_SIZE env) (file_size file)); cbn; split.
    + discriminate.
    + intros [_ ?]. lia.
    + intros _. split; [exact Hin|lia].
    + reflexivity.
  - split; [discriminate|]. intros [? _]. contradiction.
Qed.

Lemma validateImageFile_error (env : ProcessEnv) (file : File) :
  valid (validateImageFile env file) = false ->
  is_Some (validation_error (validateImageFile env file)).
Proof.
  unfold validateImageFile.
  destruct (bool_decide (file_type file ∈ ALLOWED_MIME_TYPES)); cbn;
    [destruct (MAX_FILE_SIZE env <? file_size file); cbn|]; eauto; discriminate.
Qed.

(** C3. A file whose MIME type is outside the allow-list, or whose size
    exceeds [MAX_FILE_SIZE] (10 MiB unless configured), is rejected by
    [validateImageFile]; the upload route then answers 400 with the
    validation error and leaves the state and the log of external calls
    untouched: no image processing, storage or database operation is
    made.  A file of an allowed type is valid exactly when its size is at
    most [MAX_FILE_SIZE], so the maximum itself passes and one byte more
    fails. *)
Theorem validation_fails_fast (w : World) (request : Request) (s : State) (file : File) :
  req_formData request = FormWith file ->
  file_type file ∉ ALLOWED_MIME_TYPES \/ MAX_FILE_SIZE (process_env w) < file_size file ->
  let v := validateImageFile (process_env w) file in
  valid v = false /\
  is_Some (validation_error v) /\
  snd (POST w request s) = s /\
  (forall session,
     req_session request = Some session ->
     rl_success (req_rateLimit request) = true ->
     fst (POST w request s) =
       {| status := 400; success := false; error := validation_error v;
          data := None; message := None |}) /\
  (env_MAX_FILE_SIZE_MB (process_env w) = None ->
     MAX_FILE_SIZE (process_env w) = 10 * 1024 * 1024) /\
  (forall f, file_type f ∈ ALLOWED_MIME_TYPES ->
     (file_size f = MAX_FILE_SIZE (process_env w) ->
        valid (validateImageFile (process_env w) f) = true) /\
     (file_size f = MAX_FILE_SIZE (process_env w) + 1 ->
        valid (validateImageFile (process_env w) f) = false)).
Proof.
  intros Hform Hbad v.
  assert (Hv : valid v = false).
  { destruct (valid v) eqn:E; [|reflexivity].
    apply validateImageFile_valid_iff in E. destruct E as [Hin Hle].
    destruct Hbad as [Hout|Hbig]; [contradiction|lia]. }
  split; [exact Hv|]. split; [apply validateImageFile_error; exact Hv|].
  assert (Hrun : forall session,
             req_session request = Some session ->
             rl_success (req_rateLimit request) = true ->
             POST w request s =
               ({| status := 400; success := false; error := validation_error v;
                   data := None; message := None |}, s)).
  { intros session Hs Hr. unfold POST, try_catch, POST_body.
    rewrite Hs, Hr. cbn. unfold bind, request_formData. rewrite Hform. cbn.
    fold v. rewrite Hv. reflexivity. }
  split; [|split; [|split]].
  - destruct (req_session request) as [session|] eqn:Hs.
    + destruct (rl_success (req_rateLimit request)) eqn:Hr.
      * rewrite (Hrun session eq_refl eq_refl). reflexivity.
      * unfold POST, try_catch, POST_body. rewrite Hs, Hr. reflexivity.
    + unfold POST, try_catch, POST_body. rewrite Hs. reflexivity.
  - intros session Hs Hr. rewrite (Hrun session Hs Hr). reflexivity.
  - intros Hnone. unfold MAX_FILE_SIZE. rewrite Hnone. reflexivity.
  - intros f Hin. split; intros Hsz.
    + apply validateImageFile_valid_iff. split; [exact Hin|lia].
    + destruct (valid (validateImageFile (process_env w) f)) eqn:E; [|reflexivity].
      apply validateImageFile_valid_iff in E. lia.
Qed.

Lemma validation_fails_fast_witness :
  fst (POST world_ok (request_with pdf_file) empty_state)
  = {| status := 400; success := false;
       error := Some "Invalid file type. Allowed types: image/jpeg, image/png, image/webp, image/gif, image/heic, image/heif";
       data := None; message := None |} /\
  snd (POST world_ok (request_with pdf_file) empty_state) = empty_state.
Proof.
  assert (Hout : file_type pdf_file ∉ ALLOWED_MIME_TYPES).
  { apply (proj1 (bool_decide_eq_false (file_type pdf_file ∈ ALLOWED_MIME_TYPES))).
    reflexivity. }
  destruct (validation_fails_fast world_ok (request_with pdf_file) empty_state pdf_file
              eq_refl (or_introl Hout)) as (_ & _ & Hs & Hr & _).
  split; [|exact Hs].
  rewrite (Hr user1 eq_refl eq_refl). reflexivity.
Defined.

(** ** The derivative generator *)

(** [processImage] resolves as soon as the codec decodes the input and
    encodes both derivatives; the recorded dimensions depend on the reported
    metadata only. *)
Lemma processImage_resolves (w : World) (input : Buffer) (s : State)
    (md : Metadata) (pb fb : Buffer) :
  sharp_metadata w input = Some md ->
  let env := process_env w in
  let ow := number_or (md_width md) 1920 in
  let oh := number_or (md_height md) 1080 in
  let pd := preview_dims env ow oh in
  let fd := full_dims env ow oh in
  sharp_webp w input (fst pd) (snd pd) (PREVIEW_QUALITY env) 6 = Some pb ->
  sharp_webp w input (fst fd) (snd fd) (FULL_QUALITY env) 4 = Some fb ->
  processImage w input s =
    (Resolved
       {| preview := {| d_buffer := pb; d_width := fst pd; d_height := snd pd;
                        d_size := Z.of_nat (length pb) |};
          full := {| d_buffer := fb; d_width := fst fd; d_height := snd fd;
                     d_size := Z.of_nat (length fb) |};
          filename := uuidv4 w +:+ ".webp";
          format := "webp" |},
     record (SharpEncode (fst fd) (snd fd) (FULL_QUALITY env) 4)
       (record (SharpEncode (fst pd) (snd pd) (PREVIEW_QUALITY env) 6)
          (record (SharpMetadata input) s))).
Proof.
  intros Hmd env ow oh pd fd Hp Hf. subst pd fd.
  unfold preview_dims, full_dims in *. cbn [fst snd] in *.
  unfold processImage, bind, sharp_metadata_call. rewrite Hmd.
  cbv zeta. unfold sharp_webp_call. subst env ow oh.
  rewrite Hp, Hf. reflexivity.
Qed.

Lemma number_or_pos (n d : Z) : 0 < n -> number_or (Some n) d = n.
Proof. destruct n; cbn; intros; [lia|reflexivity|lia]. Qed.

(** C4. For an original of width [W] and height [H] the recorded preview
    width is [min(PREVIEW_WIDTH, W)] and the full width [min(FULL_WIDTH, W)],
    neither above [W] nor above its configured maximum, and each height is
    [Math.round((width / W) * H)] in double arithmetic, which is the exact
    scaled height [width * H / W] rounded down or up. *)
Theorem derivative_dimensions (w : World) (input : Buffer) (s : State)
    (md : Metadata) (W H : Z) (pb fb : Buffer) :
  sharp_metadata w input = Some md ->
  md_width md = Some W -> md_height md = Some H ->
  0 < W < 2 ^ 31 -> 0 < H < 2 ^ 31 ->
  let env := process_env w in
  let pw := Z.min (PREVIEW_WIDTH env) W in
  let fw := Z.min (FULL_WIDTH env) W in
  sharp_webp w input pw (scaledHeight pw W H) (PREVIEW_QUALITY env) 6 = Some pb ->
  sharp_webp w input fw (scaledHeight fw W H) (FULL_QUALITY env) 4 = Some fb ->
  exists p s',
    processImage w input s = (Resolved p, s') /\
    d_width (preview p) = Z.min (PREVIEW_WIDTH env) W /\
    d_width (full p) = Z.min (FULL_WIDTH env) W /\
    d_width (preview p) <= W /\ d_width (preview p) <= PREVIEW_WIDTH env /\
    d_width (full p) <= W /\ d_width (full p) <= FULL_WIDTH env /\
    d_height (preview p) =
      Math_round (mul (div (inject_Z (d_width (preview p))) (inject_Z W)) (inject_Z H)) /\
    d_height (full p) =
      Math_round (mul (div (inject_Z (d_width (full p))) (inject_Z W)) (inject_Z H)) /\
    (0 < PREVIEW_WIDTH env ->
       Z.abs (d_height (preview p) * W - d_width (preview p) * H) < W) /\
    (0 < FULL_WIDTH env ->
       Z.abs (d_height (full p) * W - d_width (full p) * H) < W).
Proof.
  intros Hmd HmW HmH HW HH env pw fw Hp Hf.
  pose proof (processImage_resolves w input s md pb fb Hmd) as Hrun.
  cbv zeta in Hrun. rewrite HmW, HmH in Hrun.
  rewrite !number_or_pos in Hrun by lia.
  specialize (Hrun Hp Hf).
  eexists _, _. split; [exact Hrun|]. cbn. fold env.
  unfold Math_min. fold pw fw.
  repeat split; try lia; intros Hpos.
  - apply scaledHeight_within_one; lia.
  - apply scaledHeight_within_one; lia.
Qed.

Lemma derivative_dimensions_witness :
  exists p s',
    processImage world_ok (file_bytes jpeg_file) empty_state = (Resolved p, s') /\
    dims (preview p) = (300, 225) /\ dims (full p) = (2000, 1500).
Proof.
  destruct (derivative_dimensions world_ok (file_bytes jpeg_file) empty_state
              {| md_width := Some 4000; md_height := Some 3000; md_format := Some "jpeg" |}
              4000 3000 [Byte.x52; Byte.x49; Byte.x46; Byte.x46]
              [Byte.x52; Byte.x49; Byte.x46; Byte.x46]
              eq_refl eq_refl eq_refl ltac:(lia) ltac:(lia) eq_refl eq_refl)
    as (p & s' & Hrun & Hpw & Hfw & _ & _ & _ & _ & Hph & Hfh & _).
  exists p, s'. split; [exact Hrun|].
  unfold dims. rewrite Hph, Hfh, Hpw, Hfw. vm_compute. split; reflexivity.
Defined.

(** C9, as stated, fails: when the codec reports a height of 500 and no
    width, the full derivative is recorded as 1920x500, not as the 1920x1080
    of the default size. *)
Lemma default_size_not_substituted :
  ~ default_size_substituted world_height_only [] empty_state.
Proof.
  intros Hclaim.
  destruct (Hclaim {| md_width := None; md_height := Some 500; md_format := Some "jpeg" |}
              eq_refl (or_introl eq_refl)) as (p & s' & Hrun & _ & Hfull).
  vm_compute in Hrun. injection Hrun as <- _.
  vm_compute in Hfull. discriminate Hfull.
Qed.

(** C9, amended. Missing dimensions do not make [processImage] fail: each
    of the width and the height that the codec leaves out is replaced on its
    own by its default, 1920 for the width and 1080 for the height, a
    reported one is kept, and both derivatives are recorded with the
    dimensions computed from the resulting original size. *)
Theorem missing_dimensions_defaulted (w : World) (input : Buffer) (s : State)
    (md : Metadata) (pb fb : Buffer) :
  sharp_metadata w input = Some md ->
  md_width md = None \/ md_height md = None ->
  let env := process_env w in
  let ow := number_or (md_width md) 1920 in
  let oh := number_or (md_height md) 1080 in
  sharp_webp w input (fst (preview_dims env ow oh)) (snd (preview_dims env ow oh))
    (PREVIEW_QUALITY env) 6 = Some pb ->
  sharp_webp w input (fst (full_dims env ow oh)) (snd (full_dims env ow oh))
    (FULL_QUALITY env) 4 = Some fb ->
  exists p s',
    processImage w input s = (Resolved p, s') /\
    dims (preview p) = preview_dims env ow oh /\
    dims (full p) = full_dims env ow oh /\
    (md_width md = None -> ow = 1920) /\
    (md_height md = None -> oh = 1080) /\
    (forall W, md_width md = Some W -> W <> 0 -> ow = W) /\
    (forall H, md_height md = Some H -> H <> 0 -> oh = H).
Proof.
  intros Hmd _ env ow oh Hp Hf.
  pose proof (processImage_resolves w input s md pb fb Hmd Hp Hf) as Hrun.
  eexists _, _. split; [exact Hrun|].
  split; [reflexivity|]. split; [reflexivity|].
  subst ow oh. repeat split.
  - intros ->. reflexivity.
  - intros ->. reflexivity.
  - intros W -> HW0. destruct W; [contradiction|reflexivity|reflexivity].
  - intros H -> HH0. destruct H; [contradiction|reflexivity|reflexivity].
Qed.

Lemma missing_dimensions_defaulted_witness :
  exists p s',
    processImage world_no_dims [] empty_state = (Resolved p, s') /\
    dims (preview p) = (300, 169) /\ dims (full p) = (1920, 1080).
Proof.
  destruct (missing_dimensions_defaulted world_no_dims [] empty_state
              {| md_width := None; md_height := None; md_format := Some "jpeg" |}
              [Byte.x52; Byte.x49; Byte.x46; Byte.x46]
              [Byte.x52; Byte.x49; Byte.x46; Byte.x46]
              eq_refl (or_introl eq_refl) eq_refl eq_refl)
    as (p & s' & Hrun & Hp & Hf & _).
  exists p, s'. split; [exact Hrun|].
  rewrite Hp, Hf. vm_compute. split; reflexivity.
Defined.

(** ** The upload route *)

(** Case analysis on the next [match] of the goal whose scrutinee is not
    itself a [match]. *)
Ltac split_match :=
  match goal with
  | |- context [match ?x with _ => _ end] =>
      lazymatch x with
      | context [match _ with _ => _ end] => fail
      | _ => destruct x eqn:?
      end
  end.

Ltac unfold_route :=
  unfold POST, try_catch, POST_body, request_formData, processImage,
    sharp_metadata_call, sharp_webp_call, promise_all2, uploadFile, saveImageMetadata,
    getSignedUrl, getSupabaseAdmin, storage_upload, storage_createSignedUrl,
    db_insert_image, bind, ret, throw;
  change (default 3600 None) with 3600.

Ltac simpl_state :=
  cbn [fst snd negb orb andb op_success bucket images log record
       previewPath fullPath filename preview full d_buffer d_width d_height d_size].

(** Name the response and the final state of the run in the goal. *)
Ltac name_run :=
  cbv zeta;
  match goal with
  | |- context [POST ?w ?r ?s] =>
      let resp := fresh "resp" in
      let s' := fresh "s'" in
      let Hrun := fresh "Hrun" in
      destruct (POST w r s) as [resp s'] eqn:Hrun; cbn [fst snd]; revert Hrun
  end.

(** Follow every path through the route. *)
Ltac run_route :=
  unfold_route; repeat (split_match; simpl_state); intros [= <- <-].

Lemma new_events_app (s s' : State) (l : list Event) :
  log s' = log s ++ l -> new_events s s' = l.
Proof. intros E. unfold new_events. rewrite E. apply drop_app_length. Qed.

Lemma new_events_refl (s : State) : new_events s s = [].
Proof. apply new_events_app. symmetry. apply app_nil_r. Qed.

Lemma new_events_record (s : State) (e : Event) : new_events s (record e s) = [e].
Proof. apply new_events_app. reflexivity. Qed.

(** Rewrite the events of a run whose final state is explicit. *)
Ltac norm_events :=
  repeat match goal with
  | |- context [new_events ?s ?s'] =>
      first
        [ rewrite (new_events_refl s)
        | rewrite (new_events_app s s' _
                     ltac:(cbn [log record]; rewrite <- ?app_assoc; reflexivity)) ];
      cbn [app]
  end.

(** Membership in an explicit list, as a hypothesis and as a goal. *)
Ltac inv_elem H :=
  repeat (apply elem_of_cons in H as [H|H]; [try discriminate H|]);
  try (apply elem_of_nil in H; contradiction).

Ltac solve_elem :=
  repeat first [apply list_elem_of_here | apply list_elem_of_further].

Ltac solve_precedes :=
  unfold precedes, planned_paths;
  first
    [ exists [_; _; _], [_]; eexists; reflexivity
    | exists [_; _; _; _], []; eexists; reflexivity
    | eexists [_; _; _], [_], _; reflexivity
    | eexists [_; _; _; _], [], _; reflexivity ].

Ltac solve_stored :=
  repeat (apply lookup_insert_is_Some'; first [left; reflexivity | right]).

(** The object under a path after the two inserts of a run. *)
Ltac solve_stored_as :=
  unfold stored_as; cbn [bucket record]; eexists; split;
  [ first
      [ apply lookup_insert_eq
      | rewrite lookup_insert_ne;
        [ apply lookup_insert_eq
        | first [ apply preview_full_differ_paths
                | intros E; exact (preview_full_differ_paths _ _ _ (eq_sym E)) ] ] ]
  | split; reflexivity ].

(** An equation between upload events of the preview and the full path. *)
Ltac absurd_paths H :=
  injection H as H;
  first [ exact (False_ind _ (preview_full_differ _ _ _ H))
        | exact (False_ind _ (preview_full_differ _ _ _ (eq_sym H))) ].

(** C5. In every run of the upload route the insert into [images] is
    attempted only after both uploads have succeeded; and either no record
    is added, or exactly one is, for the planned paths, and the bucket holds
    under each of its two paths an object of the size and type the record
    states. *)
Theorem record_only_after_uploads (w : World) (request : Request) (s : State) :
  let s' := snd (POST w request s) in
  let evs := new_events s s' in
  (forall ok, DbInsert ok ∈ evs ->
     exists session,
       req_session request = Some session /\
       precedes (StorageUpload (previewPath (planned_paths w session)) true)
         (DbInsert ok) evs /\
       precedes (StorageUpload (fullPath (planned_paths w session)) true)
         (DbInsert ok) evs) /\
  (images s' = images s \/
   exists img session,
     req_session request = Some session /\
     images s' = images s ++ [img] /\
     img_preview_path img = previewPath (planned_paths w session) /\
     img_full_path img = fullPath (planned_paths w session) /\
     DbInsert true ∈ evs /\
     stored_as s' (img_preview_path img) (img_file_size_preview img) (img_mime_type img) /\
     stored_as s' (img_full_path img) (img_file_size_full img) (img_mime_type img)).
Proof.
  name_run. run_route.
  all: norm_events.
  all: split;
    [ intros ok Hin; inv_elem Hin; injection Hin as ->;
      eexists; (split; [reflexivity|split; solve_precedes])
    | first
        [ left; reflexivity
        | right; eexists _, _; split; [reflexivity|]; split; [reflexivity|];
          split; [reflexivity|]; split; [reflexivity|];
          split; [solve_elem|];
          cbn [img_preview_path img_full_path img_file_size_preview
               img_file_size_full img_mime_type];
          split; solve_stored_as ] ].
Qed.

(** C1, as stated, fails: when the database refuses the insert after both
    uploads succeeded, no deletion is attempted. *)
Lemma metadata_failure_not_compensated :
  ~ compensates_metadata_failure world_insert_fails (request_with jpeg_file) empty_state.
Proof.
  intros Hclaim.
  destruct (Hclaim user1 eq_refl) as [(ps & ok & Hin & _) _].
  - vm_compute. solve_elem.
  - vm_compute. solve_elem.
  - vm_compute. solve_elem.
  - vm_compute in Hin. inv_elem Hin.
Qed.

(** C1, amended. If the metadata insert fails after both derivative uploads
    succeeded, the route answers 500 "Failed to save image metadata", no
    record is created, and no deletion is attempted: both uploaded objects
    stay in the bucket. *)
Theorem metadata_failure_leaves_objects (w : World) (request : Request) (s : State)
    (session : JWTPayload) :
  req_session request = Some session ->
  let paths := planned_paths w session in
  let s' := snd (POST w request s) in
  let evs := new_events s s' in
  StorageUpload (previewPath paths) true ∈ evs ->
  StorageUpload (fullPath paths) true ∈ evs ->
  DbInsert false ∈ evs ->
  fst (POST w request s) = failure 500 "Failed to save image metadata" /\
  images s' = images s /\
  (forall ps ok, StorageRemove ps ok ∉ evs) /\
  is_Some (bucket s' !! previewPath paths) /\
  is_Some (bucket s' !! fullPath paths).
Proof.
  intros Hs. name_run. unfold planned_paths, POST, try_catch, POST_body.
  rewrite Hs. run_route.
  all: norm_events.
  all: intros Hp Hf Hi; inv_elem Hi.
  all: split; [reflexivity|]; split; [reflexivity|];
    split; [intros ps ok Hr; inv_elem Hr|]; split; solve_stored.
Qed.

Lemma metadata_failure_leaves_objects_witness :
  fst (POST world_insert_fails (request_with jpeg_file) empty_state)
    = failure 500 "Failed to save image metadata" /\
  is_Some (bucket (snd (POST world_insert_fails (request_with jpeg_file) empty_state))
             !! "u1/previews/3f2a.webp") /\
  is_Some (bucket (snd (POST world_insert_fails (request_with jpeg_file) empty_state))
             !! "u1/full/3f2a.webp").
Proof.
  destruct (metadata_failure_leaves_objects world_insert_fails (request_with jpeg_file)
              empty_state user1 eq_refl) as (Hr & _ & _ & Hp & Hf).
  - vm_compute. solve_elem.
  - vm_compute. solve_elem.
  - vm_compute. solve_elem.
  - split; [exact Hr|]. split; [exact Hp|exact Hf].
Defined.

(** C2, as stated, fails: when the store refuses the full derivative after
    taking the preview, no deletion of the preview is attempted. *)
Lemma partial_upload_not_compensated :
  ~ compensates_partial_upload world_full_upload_fails (request_with jpeg_file) empty_state.
Proof.
  intros Hclaim.
  destruct (Hclaim user1 "u1/previews/3f2a.webp" "u1/full/3f2a.webp" eq_refl)
    as (ps & ok & Hin & _).
  - left. split; reflexivity.
  - vm_compute. solve_elem.
  - vm_compute. solve_elem.
  - vm_compute in Hin. inv_elem Hin.
Qed.

(** C2, amended. If exactly one of the two uploads fails, the route answers
    500 "Failed to upload image to storage", the insert is not attempted and
    no record is created, and no deletion is attempted: the object whose
    upload succeeded stays in the bucket. *)
Theorem partial_upload_failure (w : World) (request : Request) (s : State)
    (session : JWTPayload) (a b : string) :
  req_session request = Some session ->
  the_two_paths (planned_paths w session) a b ->
  let s' := snd (POST w request s) in
  let evs := new_events s s' in
  StorageUpload a true ∈ evs ->
  StorageUpload b false ∈ evs ->
  fst (POST w request s) = failure 500 "Failed to upload image to storage" /\
  images s' = images s /\
  (forall ok, DbInsert ok ∉ evs) /\
  (forall ps ok, StorageRemove ps ok ∉ evs) /\
  is_Some (bucket s' !! a).
Proof.
  intros Hs Hab. name_run. unfold POST, try_catch, POST_body. rewrite Hs. run_route.
  all: norm_events.
  all: unfold the_two_paths, planned_paths in Hab; destruct Hab as [[-> ->]|[-> ->]].
  all: intros Ha Hb; inv_elem Ha; inv_elem Hb; try absurd_paths Ha.
  all: split; [reflexivity|]; split; [reflexivity|];
    split; [intros ok Hi; inv_elem Hi|];
    split; [intros ps ok Hr; inv_elem Hr|]; solve_stored.
Qed.

Lemma partial_upload_failure_witness :
  fst (POST world_full_upload_fails (request_with jpeg_file) empty_state)
    = failure 500 "Failed to upload image to storage" /\
  images (snd (POST world_full_upload_fails (request_with jpeg_file) empty_state)) = [] /\
  is_Some (bucket (snd (POST world_full_upload_fails (request_with jpeg_file) empty_state))
             !! "u1/previews/3f2a.webp").
Proof.
  destruct (partial_upload_failure world_full_upload_fails (request_with jpeg_file)
              empty_state user1 "u1/previews/3f2a.webp" "u1/full/3f2a.webp" eq_refl)
    as (Hr & Hi & _ & _ & Hp).
  - left. split; reflexivity.
  - vm_compute. solve_elem.
  - vm_compute. solve_elem.
  - split; [exact Hr|]. split; [exact Hi|exact Hp].
Defined.

(** C7, as stated, fails: an undecodable PNG and a decodable JPEG uploaded
    while the storage client cannot be constructed get the same response,
    so the response to a decode failure is not a kind of its own. *)
Lemma processing_error_not_distinct :
  ~ processing_error_distinct
      world_undecodable (request_with empty_png_file) empty_state
      world_no_key (request_with jpeg_file) empty_state.
Proof.
  intros Hclaim.
  refine (Hclaim user1 empty_png_file user1 jpeg_file _ _ _ _ _ _ _).
  - repeat split; reflexivity.
  - reflexivity.
  - repeat split; reflexivity.
  - vm_compute. reflexivity.
  - vm_compute. reflexivity.
Qed.

(** C7, amended. An input that passes validation but cannot be decoded makes
    the route answer with the response of its catch-all handler, 500
    "Failed to upload image".  That response differs from the validation,
    storage and metadata responses, but every exception thrown during the
    request gets it.  The only external call made is the decoding attempt:
    no upload, no insert, bucket and table unchanged. *)
Theorem undecodable_input_generic_failure (w : World) (request : Request)
    (session : JWTPayload) (file : File) (s : State) :
  accepted w request session file ->
  sharp_metadata w (file_bytes file) = None ->
  let s' := snd (POST w request s) in
  fst (POST w request s) = failure 500 "Failed to upload image" /\
  new_events s s' = [SharpMetadata (file_bytes file)] /\
  bucket s' = bucket s /\
  images s' = images s /\
  status (fst (POST w request s)) <> 400 /\
  fst (POST w request s) <> failure 500 "Failed to upload image to storage" /\
  fst (POST w request s) <> failure 500 "Failed to save image metadata" /\
  (forall w' request' s0 reason s1,
     POST_body w' request' s0 = (Rejected reason, s1) ->
     fst (POST w' request' s0) = fst (POST w request s)).
Proof.
  intros (Hs & Hr & Hf & Hv) Hmd. cbv zeta.
  assert (Hrun : POST w request s =
                 (failure 500 "Failed to upload image",
                  record (SharpMetadata (file_bytes file)) s)).
  { unfold_route. rewrite Hs, Hr, Hf, Hv, Hmd. reflexivity. }
  rewrite Hrun. cbn [fst snd]. split; [reflexivity|].
  split; [apply new_events_record|]. split; [reflexivity|]. split; [reflexivity|].
  split; [discriminate|]. split; [discriminate|]. split; [discriminate|].
  intros w' request' s0 reason s1 Hrej. unfold POST, try_catch. rewrite Hrej. reflexivity.
Qed.

Lemma undecodable_input_generic_failure_witness :
  fst (POST world_undecodable (request_with empty_png_file) empty_state)
    = failure 500 "Failed to upload image" /\
  new_events empty_state (snd (POST world_undecodable (request_with empty_png_file) empty_state))
    = [SharpMetadata []].
Proof.
  destruct (undecodable_input_generic_failure world_undecodable
              (request_with empty_png_file) user1 empty_png_file empty_state)
    as (Hr & He & _).
  - repeat split; reflexivity.
  - reflexivity.
  - split; [exact Hr|exact He].
Defined.

(** ** Signed URLs *)

Lemma getSignedUrl_resolves (w : World) (path : string) (expiresIn : option Z) (s : State) :
  falsy (env_SUPABASE_SERVICE_ROLE_KEY (process_env w)) = false ->
  let ttl := default 3600 expiresIn in
  getSignedUrl w path expiresIn s =
    (Resolved (storage_sign_result w path ttl),
     record (StorageSign path ttl (bool_decide (is_Some (storage_sign_result w path ttl)))) s).
Proof.
  intros Hkey ttl. unfold getSignedUrl, getSupabaseAdmin, bind, storage_createSignedUrl.
  rewrite Hkey. cbn. fold ttl. destruct (storage_sign_result w path ttl); reflexivity.
Qed.

(** Once the record is inserted the route answers 200 with it, whatever the
    store answers to the two signing requests. *)
Lemma POST_after_insert (w : World) (request : Request) (s : State) :
  let s' := snd (POST w request s) in
  DbInsert true ∈ new_events s s' ->
  falsy (env_SUPABASE_SERVICE_ROLE_KEY (process_env w)) = false /\
  exists session img,
    req_session request = Some session /\
    images s' = images s ++ [img] /\
    fst (POST w request s) =
      {| status := 200; success := true; error := None;
         data := Some {| image := img;
                         preview_url :=
                           string_or (storage_sign_result w
                                        (previewPath (planned_paths w session)) 3600) "";
                         full_url :=
                           string_or (storage_sign_result w
                                        (fullPath (planned_paths w session)) 3600) "" |};
         message := Some "Image uploaded successfully" |}.
Proof.
  name_run. unfold planned_paths. run_route.
  all: norm_events.
  all: intros Hi; inv_elem Hi.
  all: split; [reflexivity|]; eexists _, _; split; [reflexivity|];
    split; [reflexivity|].
  all: repeat match goal with
         | H : storage_sign_result _ _ _ = _ |- _ => rewrite H; clear H
         end; reflexivity.
Qed.

(** C8. After the record has been inserted, the route answers 200 with the
    record whatever the two signing requests return: a null result becomes
    an empty URL. [getSignedUrl], with its default expiry of 3600 seconds,
    resolves to the URL the store returns or to null; it does not reject. *)
Theorem signing_failure_not_fatal (w : World) (request : Request) (s : State) :
  let s' := snd (POST w request s) in
  DbInsert true ∈ new_events s s' ->
  exists session img,
    req_session request = Some session /\
    let paths := planned_paths w session in
    let previewSigned := storage_sign_result w (previewPath paths) 3600 in
    let fullSigned := storage_sign_result w (fullPath paths) 3600 in
    images s' = images s ++ [img] /\
    fst (POST w request s) =
      {| status := 200; success := true; error := None;
         data := Some {| image := img;
                         preview_url := string_or previewSigned "";
                         full_url := string_or fullSigned "" |};
         message := Some "Image uploaded successfully" |} /\
    (previewSigned = None -> string_or previewSigned "" = "") /\
    (fullSigned = None -> string_or fullSigned "" = "") /\
    (forall path s0,
       exists url,
         getSignedUrl w path None s0 =
           (Resolved url, record (StorageSign path 3600 (bool_decide (is_Some url))) s0) /\
         url = storage_sign_result w path 3600).
Proof.
  intros s' Hi.
  destruct (POST_after_insert w request s Hi)
    as (Hkey & session & img & Hs & Himg & Hresp).
  exists session, img. split; [exact Hs|]. cbv zeta.
  split; [exact Himg|]. split; [exact Hresp|].
  split; [intros ->; reflexivity|]. split; [intros ->; reflexivity|].
  intros path s0. eexists. split; [|reflexivity].
  apply (getSignedUrl_resolves w path None s0 Hkey).
Qed.

Lemma signing_failure_not_fatal_witness :
  exists img,
    fst (POST world_sign_fails (request_with jpeg_file) empty_state) =
      {| status := 200; success := true; error := None;
         data := Some {| image := img; preview_url := ""; full_url := "" |};
         message := Some "Image uploaded successfully" |} /\
    images (snd (POST world_sign_fails (request_with jpeg_file) empty_state)) = [img].
Proof.
  destruct (signing_failure_not_fatal world_sign_fails (request_with jpeg_file) empty_state)
    as (session & img & Hs & Himg & Hresp & _).
  - vm_compute. solve_elem.
  - injection Hs as <-. exists img. split; [exact Hresp|exact Himg].
Defined.

(** ** Deleting an image *)

Lemma owned_by_true (imageId userId : string) (img : Image) :
  owned_by imageId userId img = true <-> img_id img = imageId /\ img_user_id img = userId.
Proof.
  unfold owned_by. rewrite andb_true_iff, !bool_decide_eq_true. reflexivity.
Qed.

Lemma select_single_row (imageId userId : string) (rows : list Image) (row : Image) :
  filter (fun img => owned_by imageId userId img = true) rows = [row] ->
  row ∈ rows /\ img_id row = imageId /\ img_user_id row = userId.
Proof.
  intros E.
  assert (Hin : row ∈ filter (fun img => owned_by imageId userId img = true) rows)
    by (rewrite E; apply list_elem_of_here).
  apply list_elem_of_filter in Hin. destruct Hin as [Hown Hin].
  apply owned_by_true in Hown. tauto.
Qed.

(** C10. With the database client configured, [deleteImage] always resolves
    and never touches the bucket.  It resolves to a pair of paths only when
    a row with that id and that owner exists: the paths are that row's, the
    rows with that id and owner are removed and all others kept.  Whenever it
    resolves to null the table is unchanged, and it does so when no row
    with that id belongs to that user. *)
Theorem deleteImage_owner_scoped (w : World) (imageId userId : string) (s : State) :
  falsy (env_SUPABASE_SERVICE_ROLE_KEY (process_env w)) = false ->
  let r := fst (deleteImage w imageId userId s) in
  let s' := snd (deleteImage w imageId userId s) in
  (exists o, r = Resolved o) /\
  bucket s' = bucket s /\
  (forall paths,
     r = Resolved (Some paths) ->
     exists img,
       img ∈ images s /\ img_id img = imageId /\ img_user_id img = userId /\
       paths = {| previewPath := img_preview_path img; fullPath := img_full_path img |} /\
       images s' = filter (fun row => owned_by imageId userId row = false) (images s) /\
       img ∉ images s') /\
  (r = Resolved None -> images s' = images s) /\
  ((forall img, img ∈ images s -> img_id img = imageId -> img_user_id img <> userId) ->
   r = Resolved None /\ images s' = images s).
Proof.
  intros Hkey. cbv zeta.
  unfold deleteImage, getSupabaseAdmin, bind, ret, db_select_single, db_delete_where.
  rewrite Hkey.
  destruct (db_select_fault w) as [e|].
  { cbn. split; [eauto|]. split; [reflexivity|]. split; [discriminate|].
    split; [reflexivity|]. intros _. split; reflexivity. }
  destruct (filter (fun img => owned_by imageId userId img = true) (images s))
    as [|row [|row' rest]] eqn:Hsel.
  - cbn. split; [eauto|]. split; [reflexivity|]. split; [discriminate|].
    split; [reflexivity|]. intros _. split; reflexivity.
  - apply select_single_row in Hsel. destruct Hsel as (Hin & Hid & Hown).
    destruct (db_delete_fault w) as [e|]; cbn.
    + split; [eauto|]. split; [reflexivity|]. split; [discriminate|].
      split; [reflexivity|]. intros Hnone. destruct (Hnone row Hin Hid Hown).
    + split; [eauto|]. split; [reflexivity|]. split.
      * intros paths [= <-]. exists row. repeat split; try assumption.
        intros Hstill. apply list_elem_of_filter in Hstill. destruct Hstill as [Hf _].
        assert (Ht : owned_by imageId userId row = true) by (apply owned_by_true; tauto).
        congruence.
      * split; [discriminate|]. intros Hnone. destruct (Hnone row Hin Hid Hown).
  - cbn. split; [eauto|]. split; [reflexivity|]. split; [discriminate|].
    split; [reflexivity|]. intros _. split; reflexivity.
Qed.

Lemma deleteImage_owner_scoped_witness :
  (* another user asks for the row of [u1] *)
  fst (deleteImage world_ok "img-0" "u2" state_with_row1) = Resolved None /\
  images (snd (deleteImage world_ok "img-0" "u2" state_with_row1)) = [row1].
Proof.
  destruct (deleteImage_owner_scoped world_ok "img-0" "u2" state_with_row1 eq_refl)
    as (_ & _ & _ & _ & Hother).
  apply Hother. intros img Hin Hid.
  apply list_elem_of_singleton in Hin. subst img. discriminate.
Defined.

(** The owner's own request removes the row and returns its paths. *)
Example deleteImage_by_owner :
  fst (deleteImage world_ok "img-0" "u1" state_with_row1)
    = Resolved (Some {| previewPath := "u1/previews/aa.webp"; fullPath := "u1/full/aa.webp" |}) /\
  images (snd (deleteImage world_ok "img-0" "u1" state_with_row1)) = [].
Proof. split; reflexivity. Qed.

(** The single-image route deletes the record first and the two objects
    after it. *)
Example DELETE_by_owner :
  log (snd (DELETE world_ok (Some user1) "img-0" state_with_row1))
    = [DbSelect true; DbDelete true;
       StorageRemove ["u1/previews/aa.webp"; "u1/full/aa.webp"] true].
Proof. reflexivity. Qed.

(** The spec's scenario: a 4000x3000 JPEG of 8 MB under the default
    configuration. *)
Example POST_4000x3000 :
  status (fst (POST world_ok (request_with jpeg_file) empty_state)) = 200 /\
  new_events empty_state (snd (POST world_ok (request_with jpeg_file) empty_state))
    = [SharpMetadata (file_bytes jpeg_file);
       SharpEncode 300 225 40 6; SharpEncode 2000 1500 75 4;
       StorageUpload "u1/previews/3f2a.webp" true;
       StorageUpload "u1/full/3f2a.webp" true;
       DbInsert true;
       StorageSign "u1/previews/3f2a.webp" 3600 true;
       StorageSign "u1/full/3f2a.webp" 3600 true] /\
  (img_width <$> images (snd (POST world_ok (request_with jpeg_file) empty_state)))
    = [Some 2000] /\
  (img_height <$> images (snd (POST world_ok (request_with jpeg_file) empty_state)))
    = [Some 1500].
Proof. vm_compute. repeat split; reflexivity. Qed.

(** * Further properties *)

(** ** The single-image routes *)

Ltac unfold_single :=
  unfold DELETE, DELETE_body, GET_image, GET_image_body, getImageById, try_catch,
    deleteImage, deleteFiles, getSignedUrl, getSupabaseAdmin, db_select_single,
    db_delete_where, storage_remove, storage_createSignedUrl, bind, ret, throw;
  change (default 3600 None) with 3600.

Lemma filter_none {A} (P : A -> Prop) `{forall x, Decision (P x)} (l : list A) :
  (forall x, x ∈ l -> ~ P x) -> filter P l = [].
Proof.
  induction l as [|a l IH]; intros Hall; [reflexivity|].
  rewrite filter_cons_False by (apply Hall; apply list_elem_of_here).
  apply IH. intros x Hx. apply Hall. apply list_elem_of_further. exact Hx.
Qed.

Lemma filter_all {A} (P : A -> Prop) `{forall x, Decision (P x)} (l : list A) :
  (forall x, x ∈ l -> P x) -> filter P l = l.
Proof.
  induction l as [|a l IH]; intros Hall; [reflexivity|].
  rewrite filter_cons_True by (apply Hall; apply list_elem_of_here).
  f_equal. apply IH. intros x Hx. apply Hall. apply list_elem_of_further. exact Hx.
Qed.

(** With unique ids, the rows matched by an id and its owner are that row
    alone. *)
Lemma filter_owned_unique (imageId userId : string) (rows : list Image) (row : Image) :
  NoDup (img_id <$> rows) ->
  row ∈ rows -> img_id row = imageId -> img_user_id row = userId ->
  filter (fun img => owned_by imageId userId img = true) rows = [row].
Proof.
  intros Hnd Hin Hid Hu. induction rows as [|r rows IH]; [inversion Hin|].
  rewrite fmap_cons in Hnd. apply NoDup_cons in Hnd. destruct Hnd as [Hnotin Hnd].
  apply elem_of_cons in Hin. destruct Hin as [<-|Hin].
  - rewrite filter_cons_True by (apply owned_by_true; tauto). f_equal.
    apply filter_none. intros x Hx Hown. apply owned_by_true in Hown.
    apply Hnotin. apply list_elem_of_fmap. exists x. split; [|exact Hx].
    destruct Hown as [-> _]. exact Hid.
  - rewrite filter_cons_False; [exact (IH Hnd Hin)|].
    intros Hown. apply owned_by_true in Hown. apply Hnotin.
    apply list_elem_of_fmap. exists row. split; [|exact Hin].
    destruct Hown as [-> _]. symmetry. exact Hid.
Qed.

(** X1. When the owner deletes an image (ids unique, no backend fault) the
    route answers 200, exactly that row leaves the table, both of its
    objects leave the bucket and no other object changes; the record is
    deleted before the objects. *)
Theorem DELETE_by_owner_removes_all (w : World) (session : JWTPayload) (id : string)
    (s : State) (row : Image) :
  falsy (env_SUPABASE_SERVICE_ROLE_KEY (process_env w)) = false ->
  db_select_fault w = None -> db_delete_fault w = None ->
  storage_remove_fault w [img_preview_path row; img_full_path row] = None ->
  NoDup (img_id <$> images s) ->
  row ∈ images s -> img_id row = id -> img_user_id row = userId session ->
  let resp := fst (DELETE w (Some session) id s) in
  let s' := snd (DELETE w (Some session) id s) in
  resp = {| status := 200; success := true; error := None; data := None;
            message := Some "Image deleted successfully" |} /\
  (row ∉ images s') /\
  (forall other, other ∈ images s -> other <> row -> other ∈ images s') /\
  (forall other, other ∈ images s' -> other ∈ images s) /\
  bucket s' !! img_preview_path row = None /\
  bucket s' !! img_full_path row = None /\
  (forall path, path <> img_preview_path row -> path <> img_full_path row ->
     bucket s' !! path = bucket s !! path) /\
  new_events s s' =
    [DbSelect true; DbDelete true;
     StorageRemove [img_preview_path row; img_full_path row] true].
Proof.
  intros Hkey Hsel Hdel Hrem Hnd Hin Hid Hu. cbv zeta.
  pose proof (filter_owned_unique id (userId session) (images s) row Hnd Hin Hid Hu) as Hf.
  unfold_single. rewrite Hkey, Hsel, Hf. cbn. rewrite Hdel. cbn. rewrite Hrem. cbn.
  split; [reflexivity|]. split.
  { intros Hstill. apply list_elem_of_filter in Hstill. destruct Hstill as [Hno _].
    assert (owned_by id (userId session) row = true) by (apply owned_by_true; tauto).
    congruence. }
  split.
  { intros other Hother Hne. apply list_elem_of_filter. split; [|exact Hother].
    destruct (owned_by id (userId session) other) eqn:Ho; [|reflexivity].
    exfalso. apply Hne.
    assert (Hm : other ∈ filter (fun img => owned_by id (userId session) img = true) (images s))
      by (apply list_elem_of_filter; tauto).
    rewrite Hf in Hm. apply list_elem_of_singleton in Hm. exact Hm. }
  split.
  { intros other Hother. apply list_elem_of_filter in Hother. tauto. }
  split.
  { apply lookup_delete_eq. }
  split.
  { destruct (decide (img_preview_path row = img_full_path row)) as [E|E].
    - rewrite E. apply lookup_delete_eq.
    - rewrite lookup_delete_ne by exact E. apply lookup_delete_eq. }
  split.
  { intros path H1 H2. rewrite !lookup_delete_ne by congruence. reflexivity. }
  apply new_events_app. cbn. rewrite <- !app_assoc. reflexivity.
Qed.

Lemma DELETE_by_owner_removes_all_witness :
  images (snd (DELETE world_ok (Some user1) "img-0" state_gallery)) = [row2; row3] /\
  bucket (snd (DELETE world_ok (Some user1) "img-0" state_gallery)) !! "u1/full/aa.webp" = None /\
  bucket (snd (DELETE world_ok (Some user1) "img-0" state_gallery)) !! "u2/full/bb.webp"
    = Some webp_object.
Proof.
  destruct (DELETE_by_owner_removes_all world_ok user1 "img-0" state_gallery row1)
    as (_ & _ & _ & _ & _ & Hfull & Hrest & _);
    try reflexivity.
  - apply (bool_decide_unpack _). vm_compute. reflexivity.
  - apply list_elem_of_here.
  - split; [reflexivity|]. split; [exact Hfull|].
    rewrite Hrest by discriminate. reflexivity.
Defined.

(** X2. Whatever the backend does, [DELETE /api/images/[id]] adds no row,
    removes only rows with the requested id that belong to the caller, and
    changes the bucket only at the two paths of such a removed row; without
    a session it answers 401 and calls nothing. *)
Theorem DELETE_touches_only_own_record (w : World) (session : option JWTPayload)
    (id : string) (s : State) :
  let resp := fst (DELETE w session id s) in
  let s' := snd (DELETE w session id s) in
  (session = None -> resp = failure 401 "Unauthorized" /\ s' = s) /\
  (forall r, r ∈ images s' -> r ∈ images s) /\
  (forall r, r ∈ images s ->
     r ∈ images s' \/
     exists sess, session = Some sess /\ img_id r = id /\ img_user_id r = userId sess) /\
  (forall path,
     bucket s' !! path = bucket s !! path \/
     exists sess row,
       session = Some sess /\ row ∈ images s /\
       img_id row = id /\ img_user_id row = userId sess /\
       (row ∉ images s') /\
       (path = img_preview_path row \/ path = img_full_path row)).
Proof.
  cbv zeta. unfold_single.
  destruct session as [sess|]; [|cbn; repeat split; auto].
  destruct (falsy (env_SUPABASE_SERVICE_ROLE_KEY (process_env w))) eqn:Hkey;
    [cbn; repeat split; auto; discriminate|].
  destruct (db_select_fault w) as [e|]; [cbn; repeat split; auto; discriminate|].
  destruct (filter (fun img => owned_by id (userId sess) img = true) (images s))
    as [|row [|row' rest]] eqn:Hsel; [cbn; repeat split; auto; discriminate| |
                                      cbn; repeat split; auto; discriminate].
  apply select_single_row in Hsel. destruct Hsel as (Hin & Hid & Hown).
  destruct (db_delete_fault w) as [e|]; [cbn; repeat split; auto; discriminate|].
  assert (Hgone : row ∉ filter (fun img => owned_by id (userId sess) img = false) (images s)).
  { intros Hstill. apply list_elem_of_filter in Hstill. destruct Hstill as [Hno _].
    assert (owned_by id (userId sess) row = true) by (apply owned_by_true; tauto).
    congruence. }
  assert (Hsub : forall r, r ∈ filter (fun img => owned_by id (userId sess) img = false) (images s)
                           -> r ∈ images s).
  { intros r Hr. apply list_elem_of_filter in Hr. tauto. }
  assert (Hkept : forall r, r ∈ images s ->
             r ∈ filter (fun img => owned_by id (userId sess) img = false) (images s) \/
             exists sess0, Some sess = Some sess0 /\ img_id r = id /\
                           img_user_id r = userId sess0).
  { intros r Hr. destruct (owned_by id (userId sess) r) eqn:Ho.
    - right. apply owned_by_true in Ho. exists sess. tauto.
    - left. apply list_elem_of_filter. tauto. }
  cbn.
  destruct (storage_remove_fault w [img_preview_path row; img_full_path row]) as [e|];
    cbn; (split; [discriminate|]); (split; [exact Hsub|]); (split; [exact Hkept|]).
  - intros path. left. reflexivity.
  - intros path.
    destruct (decide (path = img_preview_path row)) as [->|H1];
      [right; exists sess, row; tauto|].
    destruct (decide (path = img_full_path row)) as [->|H2];
      [right; exists sess, row; tauto|].
    left. rewrite !lookup_delete_ne by congruence. reflexivity.
Qed.

(** X3. When the store refuses to remove the objects, the route still
    answers 200 "Image deleted successfully": the row is gone and both
    objects stay in the bucket. *)
Theorem DELETE_ignores_storage_failure (w : World) (session : JWTPayload) (id : string)
    (s : State) (row : Image) (e : string) :
  falsy (env_SUPABASE_SERVICE_ROLE_KEY (process_env w)) = false ->
  db_select_fault w = None -> db_delete_fault w = None ->
  storage_remove_fault w [img_preview_path row; img_full_path row] = Some e ->
  NoDup (img_id <$> images s) ->
  row ∈ images s -> img_id row = id -> img_user_id row = userId session ->
  let resp := fst (DELETE w (Some session) id s) in
  let s' := snd (DELETE w (Some session) id s) in
  resp = {| status := 200; success := true; error := None; data := None;
            message := Some "Image deleted successfully" |} /\
  (row ∉ images s') /\
  bucket s' = bucket s /\
  new_events s s' =
    [DbSelect true; DbDelete true;
     StorageRemove [img_preview_path row; img_full_path row] false].
Proof.
  intros Hkey Hsel Hdel Hrem Hnd Hin Hid Hu. cbv zeta.
  pose proof (filter_owned_unique id (userId session) (images s) row Hnd Hin Hid Hu) as Hf.
  unfold_single. rewrite Hkey, Hsel, Hf. cbn. rewrite Hdel. cbn. rewrite Hrem. cbn.
  split; [reflexivity|]. split.
  { intros Hstill. apply list_elem_of_filter in Hstill. destruct Hstill as [Hno _].
    assert (owned_by id (userId session) row = true) by (apply owned_by_true; tauto).
    congruence. }
  split; [reflexivity|].
  apply new_events_app. cbn. rewrite <- !app_assoc. reflexivity.
Qed.

Lemma DELETE_ignores_storage_failure_witness :
  status (fst (DELETE world_remove_fails (Some user1) "img-0" state_gallery)) = 200 /\
  bucket (snd (DELETE world_remove_fails (Some user1) "img-0" state_gallery))
    !! "u1/full/aa.webp" = Some webp_object.
Proof.
  destruct (DELETE_ignores_storage_failure world_remove_fails user1 "img-0" state_gallery
              row1 "remove failed")
    as (Hresp & _ & Hb & _);
    try reflexivity.
  - apply (bool_decide_unpack _). vm_compute. reflexivity.
  - apply list_elem_of_here.
  - rewrite Hresp, Hb. split; reflexivity.
Defined.

(** X4. [GET /api/images/[id]] changes neither the table nor the bucket
    and returns an image only if it is a row with the requested id owned by
    the caller, with the URLs the store signed for its two paths (an empty
    string for a refused one); when no such row exists the answer carries no
    image and is not a 200. *)
Theorem GET_image_owner_scoped (w : World) (session : option JWTPayload) (id : string)
    (s : State) :
  let resp := fst (GET_image w session id s) in
  let s' := snd (GET_image w session id s) in
  bucket s' = bucket s /\ images s' = images s /\
  (session = None -> resp = failure 401 "Unauthorized") /\
  (forall d, data resp = Some d ->
     exists sess,
       session = Some sess /\ status resp = 200 /\
       image d ∈ images s /\ img_id (image d) = id /\
       img_user_id (image d) = userId sess /\
       preview_url d = string_or (storage_sign_result w (img_preview_path (image d)) 3600) "" /\
       full_url d = string_or (storage_sign_result w (img_full_path (image d)) 3600) "") /\
  ((forall r, r ∈ images s -> img_id r = id ->
      forall sess, session = Some sess -> img_user_id r <> userId sess) ->
   data resp = None /\ status resp <> 200).
Proof.
  cbv zeta. unfold_single.
  destruct session as [sess|];
    [|cbn; repeat split; auto; try discriminate].
  destruct (falsy (env_SUPABASE_SERVICE_ROLE_KEY (process_env w))) eqn:Hkey;
    [cbn; repeat split; auto; discriminate|].
  destruct (db_select_fault w) as [e|]; [cbn; repeat split; auto; discriminate|].
  destruct (filter (fun img => owned_by id (userId sess) img = true) (images s))
    as [|row [|row' rest]] eqn:Hsel; [cbn; repeat split; auto; discriminate| |
                                      cbn; repeat split; auto; discriminate].
  apply select_single_row in Hsel. destruct Hsel as (Hin & Hid & Hown).
  destruct (storage_sign_result w (img_preview_path row) 3600) eqn:Hp;
    destruct (storage_sign_result w (img_full_path row) 3600) eqn:Hf; cbn;
    (split; [reflexivity|]); (split; [reflexivity|]); (split; [discriminate|]);
    (split; [intros d [= <-]; exists sess; cbn; rewrite ?Hp, ?Hf; repeat split; auto
            | intros Hnone; destruct (Hnone row Hin Hid sess eq_refl Hown)]).
Qed.

(** ** The upload route, continued *)

(** The two planned paths are free in a bucket that took both uploads. *)
Ltac free_paths :=
  repeat match goal with
  | H : <[_:=_]> _ !! _ = None |- _ => apply lookup_insert_None in H; destruct H as [H _]
  end.

(** What a run of the upload route leaves behind: either the table is
    unchanged and the bucket has at most gained objects, or one record was
    inserted after both objects were stored under paths that were free. *)
Lemma POST_run_summary (w : World) (request : Request) (s : State) :
  let s' := snd (POST w request s) in
  (images s' = images s /\ bucket s ⊆ bucket s' /\
   (DbInsert true ∉ new_events s s')) \/
  exists session file pobj fobj row,
    accepted w request session file /\
    falsy (env_SUPABASE_SERVICE_ROLE_KEY (process_env w)) = false /\
    DbInsert true ∈ new_events s s' /\
    bucket s !! previewPath (planned_paths w session) = None /\
    bucket s !! fullPath (planned_paths w session) = None /\
    (db_uuid w ∉ img_id <$> images s) /\
    images s' = images s ++ [row] /\
    img_id row = db_uuid w /\
    img_user_id row = userId session /\
    img_preview_path row = previewPath (planned_paths w session) /\
    img_full_path row = fullPath (planned_paths w session) /\
    fst (POST w request s) =
      {| status := 200; success := true; error := None;
         data := Some {| image := row;
                         preview_url :=
                           string_or (storage_sign_result w
                                        (previewPath (planned_paths w session)) 3600) "";
                         full_url :=
                           string_or (storage_sign_result w
                                        (fullPath (planned_paths w session)) 3600) "" |};
         message := Some "Image uploaded successfully" |} /\
    bucket s' = <[previewPath (planned_paths w session) := pobj]>
                  (<[fullPath (planned_paths w session) := fobj]> (bucket s)).
Proof.
  name_run. unfold planned_paths, accepted. run_route.
  all: norm_events.
  all: first
    [ left; split; [reflexivity|]; split;
      [ first
          [ reflexivity
          | apply insert_subseteq; assumption
          | etrans; [|apply insert_subseteq; eassumption];
            apply insert_subseteq; assumption ]
      | intros Hi; inv_elem Hi ]
    | right ].
  all: free_paths.
  all: eexists _, _, _, _, _.
  all: repeat match goal with
         | H : negb _ = false |- _ => apply negb_false_iff in H
         | H : bool_decide _ = false |- _ => apply bool_decide_eq_false in H
         end.
  all: split; [repeat split; first [reflexivity | eassumption]|].
  all: split; [reflexivity|].
  all: split; [solve_elem|].
  all: split; [assumption|]; split; [assumption|]; split; [assumption|].
  all: split; [reflexivity|]; split; [reflexivity|]; split; [reflexivity|];
       split; [reflexivity|]; split; [reflexivity|].
  all: split;
    [ repeat match goal with
        | H : storage_sign_result _ _ _ = _ |- _ => rewrite H; clear H
        end; reflexivity |].
  all: first [ reflexivity
             | apply insert_insert_ne; apply preview_full_differ_paths
             | symmetry; apply insert_insert_ne; apply preview_full_differ_paths ].
Qed.

Lemma delete_two_inserted {A} (m : gmap string A) (i j : string) (x y : A) :
  m !! i = None -> m !! j = None -> i <> j ->
  foldr delete (<[i:=x]> (<[j:=y]> m)) [i; j] = m.
Proof.
  intros Hi Hj Hne. cbn.
  rewrite delete_insert_ne by congruence.
  rewrite (delete_insert_id m j y Hj).
  apply delete_insert_id. exact Hi.
Qed.

(** X5. In every run the upload route keeps every object the bucket held
    and every row the table held, in order, and appends at most one row. *)
Theorem POST_only_adds (w : World) (request : Request) (s : State) :
  let s' := snd (POST w request s) in
  (forall path o, bucket s !! path = Some o -> bucket s' !! path = Some o) /\
  (exists added, images s' = images s ++ added /\ (length added <= 1)%nat).
Proof.
  cbv zeta. split.
  - destruct (POST_run_summary w request s) as [(_ & Hsub & _)|Hok].
    + intros path o Ho. exact (lookup_weaken _ _ _ _ Ho Hsub).
    + destruct Hok as (session & file & pobj & fobj & row & _ & _ & _ & Hp & Hf & _ & _ &
                       _ & _ & _ & _ & _ & Hb).
      intros path o Ho. rewrite Hb.
      rewrite !lookup_insert_ne by congruence. exact Ho.
  - destruct (POST_run_summary w request s) as [(Hi & _)|Hok].
    + exists []. rewrite app_nil_r. split; [exact Hi|cbn; lia].
    + destruct Hok as (session & file & pobj & fobj & row & _ & _ & _ & _ & _ & _ & Hi & _).
      exists [row]. split; [exact Hi|cbn; lia].
Qed.

(** X6. The upload route keeps the ids of the table unique, and every row
    it adds belongs to the caller. *)
Theorem POST_keeps_ids_unique (w : World) (request : Request) (s : State) :
  NoDup (img_id <$> images s) ->
  let s' := snd (POST w request s) in
  NoDup (img_id <$> images s') /\
  (forall r, r ∈ images s' -> r ∈ images s \/
     exists session, req_session request = Some session /\ img_user_id r = userId session).
Proof.
  intros Hnd. cbv zeta.
  destruct (POST_run_summary w request s) as [(Hi & _)|Hok].
  - rewrite Hi. split; [exact Hnd|]. intros r Hr. left. exact Hr.
  - destruct Hok as (session & file & pobj & fobj & row & Hacc & _ & _ & _ & _ & Hfresh &
                     Hi & Hid & Hu & _).
    rewrite Hi. split.
    + rewrite fmap_app. apply NoDup_app. split; [exact Hnd|]. split.
      * intros x Hx Hx'. cbn in Hx'. apply list_elem_of_singleton in Hx'. subst x.
        rewrite Hid in Hx. exact (Hfresh Hx).
      * cbn. apply NoDup_singleton.
    + intros r Hr. apply elem_of_app in Hr. destruct Hr as [Hr|Hr]; [left; exact Hr|].
      apply list_elem_of_singleton in Hr. subst r. right. exists session.
      destruct Hacc as (Hs & _). split; [exact Hs|exact Hu].
Qed.

Lemma POST_keeps_ids_unique_witness :
  NoDup (img_id <$> images (snd (POST world_ok (request_with jpeg_file) state_gallery))).
Proof.
  apply (POST_keeps_ids_unique world_ok (request_with jpeg_file) state_gallery).
  apply (bool_decide_unpack _). vm_compute. reflexivity.
Defined.

Lemma filter_owned_appended (imageId userId : string) (rows : list Image) (row : Image) :
  (imageId ∉ img_id <$> rows) ->
  img_id row = imageId -> img_user_id row = userId ->
  filter (fun img => owned_by imageId userId img = true) (rows ++ [row]) = [row] /\
  filter (fun img => owned_by imageId userId img = false) (rows ++ [row]) = rows /\
  (forall other, other <> userId ->
     filter (fun img => owned_by imageId other img = true) (rows ++ [row]) = []).
Proof.
  intros Hfresh Hid Hu.
  assert (Hnot : forall u x, x ∈ rows -> owned_by imageId u x = false).
  { intros u x Hx. destruct (owned_by imageId u x) eqn:Ho; [|reflexivity].
    apply owned_by_true in Ho. exfalso. apply Hfresh.
    apply list_elem_of_fmap. exists x. split; [symmetry; tauto|exact Hx]. }
  assert (Hrow : owned_by imageId userId row = true) by (apply owned_by_true; tauto).
  rewrite !filter_app. split; [|split].
  - rewrite filter_none by (intros x Hx; rewrite (Hnot userId x Hx); discriminate).
    rewrite filter_cons_True by exact Hrow. reflexivity.
  - rewrite filter_all by (intros x Hx; exact (Hnot userId x Hx)).
    rewrite filter_cons_False by (rewrite Hrow; discriminate).
    apply app_nil_r.
  - intros other Hne. rewrite filter_app.
    rewrite filter_none by (intros x Hx; rewrite (Hnot other x Hx); discriminate).
    rewrite filter_cons_False; [reflexivity|].
    intros Ho. apply owned_by_true in Ho. destruct Ho as [_ Ho]. congruence.
Qed.



(** X8. Deleting an image right after its upload, with no backend fault,
    restores the table and the bucket to what they were before the upload. *)
Theorem upload_then_delete (w : World) (request : Request) (s : State)
    (session : JWTPayload) :
  let s1 := snd (POST w request s) in
  DbInsert true ∈ new_events s s1 ->
  req_session request = Some session ->
  db_select_fault w = None -> db_delete_fault w = None ->
  storage_remove_fault w
    [previewPath (planned_paths w session); fullPath (planned_paths w session)] = None ->
  let resp := fst (DELETE w (Some session) (db_uuid w) s1) in
  let s2 := snd (DELETE w (Some session) (db_uuid w) s1) in
  status resp = 200 /\ images s2 = images s /\ bucket s2 = bucket s.
Proof.
  cbv zeta. intros Hins Hs Hsel Hdel Hrem.
  destruct (POST_run_summary w request s) as [(_ & _ & Hno)|Hok]; [contradiction|].
  destruct Hok as (session' & file & pobj & fobj & row & Hacc & Hkey & _ & Hp & Hf & Hfresh &
                   Hi & Hid & Hu & Hpp & Hfp & _ & Hb).
  destruct Hacc as (Hs' & _). rewrite Hs in Hs'. injection Hs' as <-.
  destruct (filter_owned_appended (db_uuid w) (userId session) (images s) row Hfresh Hid Hu)
    as (Hmine & Hrest & _).
  unfold_single. rewrite Hkey, Hsel, Hi, Hmine. cbn.
  rewrite Hdel. cbn. rewrite Hpp, Hfp, Hrem. cbn.
  split; [reflexivity|]. split; [rewrite Hi; exact Hrest|].
  rewrite Hb. apply (delete_two_inserted (bucket s)); [exact Hp|exact Hf|].
  apply preview_full_differ.
Qed.

Lemma upload_then_delete_witness :
  images (snd (DELETE world_ok (Some user1) "img-1"
                 (snd (POST world_ok (request_with jpeg_file) state_gallery))))
    = [row1; row2; row3] /\
  bucket (snd (DELETE world_ok (Some user1) "img-1"
                 (snd (POST world_ok (request_with jpeg_file) state_gallery))))
    = bucket state_gallery.
Proof.
  destruct (upload_then_delete world_ok (request_with jpeg_file) state_gallery user1)
    as (_ & Hi & Hb); try reflexivity.
  - vm_compute. solve_elem.
  - split; [exact Hi|exact Hb].
Defined.

(** X9. The upload route answers 401 without a session, 429 with the
    rate limiter's message when the limit is exceeded, 400 when the form has
    no file and 500 when the body is not form data; unless the request is
    authenticated, within its limit and carries a valid file, no call to the
    codec, the store or the database is made. *)
Theorem POST_refusals_make_no_call (w : World) (request : Request) (s : State) :
  let resp := fst (POST w request s) in
  let s' := snd (POST w request s) in
  (req_session request = None -> resp = failure 401 "Unauthorized") /\
  (forall session,
     req_session request = Some session ->
     rl_success (req_rateLimit request) = false ->
     resp = failure 429 (formatRateLimitError (rl_msBeforeNext (req_rateLimit request)))) /\
  (forall session,
     req_session request = Some session ->
     rl_success (req_rateLimit request) = true ->
     req_formData request = FormWithout ->
     resp = failure 400 "No file provided") /\
  (forall session,
     req_session request = Some session ->
     rl_success (req_rateLimit request) = true ->
     req_formData request = FormRejects ->
     resp = failure 500 "Failed to upload image") /\
  (s' = s \/ exists session file, accepted w request session file).
Proof.
  cbv zeta. unfold POST, try_catch, POST_body, accepted.
  destruct (req_session request) as [session|];
    [|cbn; repeat split; solve [intros; congruence | left; reflexivity]].
  destruct (rl_success (req_rateLimit request)) eqn:Hr;
    [|cbn; repeat split; solve [intros; congruence | left; reflexivity]].
  unfold bind at 1. unfold request_formData.
  destruct (req_formData request) as [| |file];
    [cbn; repeat split; solve [intros; congruence | left; reflexivity]..|].
  cbv zeta.
  destruct (valid (validateImageFile (process_env w) file)) eqn:Hv.
  - split; [discriminate|]. split; [discriminate|]. split; [discriminate|].
    split; [discriminate|]. right. exists session, file. repeat split; assumption.
  - cbn. rewrite Hv. cbn. repeat split; solve [intros; congruence | left; reflexivity].
Qed.

(** X10. Whenever the upload route attempts an upload, the metadata read
    and both encodes (preview with effort 6, full with effort 4) came first,
    both planned paths are attempted, and nothing is uploaded under any other
    path. *)
Theorem uploads_follow_both_encodes (w : World) (request : Request) (s : State) :
  let evs := new_events s (snd (POST w request s)) in
  forall path ok,
    StorageUpload path ok ∈ evs ->
    exists session input pw ph pq fw fh fq rest okp okf,
      req_session request = Some session /\
      evs = SharpMetadata input :: SharpEncode pw ph pq 6 :: SharpEncode fw fh fq 4 :: rest /\
      StorageUpload (previewPath (planned_paths w session)) okp ∈ rest /\
      StorageUpload (fullPath (planned_paths w session)) okf ∈ rest /\
      (path = previewPath (planned_paths w session) \/
       path = fullPath (planned_paths w session)).
Proof.
  name_run. unfold planned_paths. run_route.
  all: norm_events.
  all: intros path ok Hin; inv_elem Hin; injection Hin as -> ->.
  all: eexists _, _, _, _, _, _, _, _, _, _, _.
  all: split; [reflexivity|]; split; [reflexivity|].
  all: split; [solve_elem|]; split; [solve_elem|].
  all: first [left; reflexivity | right; reflexivity].
Qed.

Lemma uploads_follow_both_encodes_witness :
  exists rest,
    new_events empty_state (snd (POST world_ok (request_with jpeg_file) empty_state)) =
      SharpMetadata (file_bytes jpeg_file) :: SharpEncode 300 225 40 6
        :: SharpEncode 2000 1500 75 4 :: rest /\
    StorageUpload "u1/previews/3f2a.webp" true ∈ rest.
Proof.
  destruct (uploads_follow_both_encodes world_ok (request_with jpeg_file) empty_state
              "u1/full/3f2a.webp" true)
    as (session & input & pw & ph & pq & fw & fh & fq & rest & okp & okf
        & Hs & Hevs & Hp & _).
  - vm_compute. solve_elem.
  - injection Hs as <-. vm_compute in Hevs. injection Hevs as <- <- <- <- <- <- <- <-.
    eexists. split; [vm_compute; reflexivity|]. vm_compute. solve_elem.
Defined.

(** ** Listing images *)

Lemma getUserImages_run (w : World) (b : ListBackend) (userId : string)
    (page limit : option Z) (s : State) :
  falsy (env_SUPABASE_SERVICE_ROLE_KEY (process_env w)) = false ->
  let p := default 1 page in
  let l := default 20 limit in
  let count :=
    match db_count_fault b with
    | Some _ => None
    | None => Some (Z.of_nat (length (filter (fun img => img_user_id img = userId) (images s))))
    end in
  let answer := window_answer b (user_rows b userId s) ((p - 1) * l) ((p - 1) * l + l - 1) in
  getUserImages w b userId page limit s =
    (Resolved match answer with
              | None => ([], 0)
              | Some data => (data, number_or count 0)
              end,
     record (DbSelect (bool_decide (is_Some answer)))
       (record (DbSelect (bool_decide (is_Some count))) s)).
Proof.
  intros Hkey. cbv zeta.
  unfold getUserImages, getSupabaseAdmin, db_count_images, db_select_range, bind, ret.
  rewrite Hkey. unfold window_answer, user_rows.
  destruct (db_count_fault b); cbn [fst snd images record];
    match goal with
    | |- context [match ?a with Some _ => _ | None => _ end ?s] => destruct a
    end; reflexivity.
Qed.

Lemma window_answer_within (b : ListBackend) (rows : list Image) (from to : Z)
    (imgs : list Image) :
  window_answer b rows from to = Some imgs ->
  imgs ⊆ rows /\ Z.of_nat (length imgs) <= Z.max 0 (to - from + 1).
Proof.
  unfold window_answer. intros H.
  destruct (db_list_fault b); [discriminate|].
  destruct ((from <? 0) || (to <? from)).
  { destruct (db_bad_window_fault b); [discriminate|]. injection H as <-.
    split; [apply list_subseteq_nil|cbn; lia]. }
  destruct (Z.of_nat (length rows) <? from).
  { destruct (db_window_past_end_fault b); [discriminate|]. injection H as <-.
    split; [apply list_subseteq_nil|cbn; lia]. }
  injection H as <-. split.
  - etrans; [apply subseteq_take|apply subseteq_drop].
  - rewrite length_take. lia.
Qed.

(** X11. [getUserImages] only reads; for a database whose ordering permutes
    the rows, the images it returns are rows of the given user, at most
    [limit] of them, and the total is the number of the user's rows or 0. *)
Theorem getUserImages_scoped (w : World) (b : ListBackend) (userId : string)
    (page limit : option Z) (s : State) :
  (forall l, db_order_created_at_desc b l ≡ₚ l) ->
  let r := fst (getUserImages w b userId page limit s) in
  let s' := snd (getUserImages w b userId page limit s) in
  bucket s' = bucket s /\ images s' = images s /\
  forall imgs total,
    r = Resolved (imgs, total) ->
    (forall img, img ∈ imgs -> img ∈ images s /\ img_user_id img = userId) /\
    Z.of_nat (length imgs) <= Z.max 0 (default 20 limit) /\
    (total = 0 \/
     total = Z.of_nat (length (filter (fun img => img_user_id img = userId) (images s)))).
Proof.
  intros Hperm. cbv zeta.
  destruct (falsy (env_SUPABASE_SERVICE_ROLE_KEY (process_env w))) eqn:Hkey.
  { unfold getUserImages, getSupabaseAdmin, bind, throw. rewrite Hkey. cbn.
    split; [reflexivity|]. split; [reflexivity|]. discriminate. }
  rewrite (getUserImages_run w b userId page limit s Hkey). cbn [fst snd bucket images record].
  split; [reflexivity|]. split; [reflexivity|].
  intros imgs total Hr.
  destruct (window_answer b (user_rows b userId s) _ _) as [data|] eqn:Hw.
  - injection Hr as <- <-. apply window_answer_within in Hw. destruct Hw as [Hsub Hlen].
    split; [|split].
    + intros img Hin. apply Hsub in Hin. unfold user_rows in Hin.
      rewrite (Hperm _) in Hin. apply list_elem_of_filter in Hin. tauto.
    + lia.
    + destruct (db_count_fault b); [left; reflexivity|].
      unfold number_or.
      destruct (Z.of_nat (length (filter (fun img => img_user_id img = userId) (images s))));
        auto.
  - injection Hr as <- <-. split; [intros img Hin; inversion Hin|].
    split; [cbn; lia|left; reflexivity].
Qed.

Lemma rev_permutation {A} (l : list A) : rev l ≡ₚ l.
Proof. symmetry. apply Permutation_rev. Qed.

Lemma getUserImages_scoped_witness :
  fst (getUserImages world_ok list_backend_ok "u1" (Some 1) (Some 1) state_gallery)
    = Resolved ([row3], 2) /\
  row3 ∈ images state_gallery /\ img_user_id row3 = "u1".
Proof.
  destruct (getUserImages_scoped world_ok list_backend_ok "u1" (Some 1) (Some 1) state_gallery)
    as (_ & _ & H).
  - intros l. apply rev_permutation.
  - destruct (H [row3] 2 eq_refl) as (Hown & _).
    split; [reflexivity|]. apply Hown. apply list_elem_of_here.
Defined.

Lemma sign_images_run (w : World) (imgs : list Image) (s : State) :
  falsy (env_SUPABASE_SERVICE_ROLE_KEY (process_env w)) = false ->
  exists s', sign_images w imgs s = (Resolved (with_urls w <$> imgs), s') /\
             bucket s' = bucket s /\ images s' = images s.
Proof.
  intros Hkey. revert s. induction imgs as [|img imgs IH]; intros s.
  - exists s. repeat split.
  - cbn [sign_images]. unfold bind at 1. rewrite (getSignedUrl_resolves w _ None s Hkey).
    unfold bind at 1. rewrite (getSignedUrl_resolves w _ None _ Hkey).
    unfold bind at 1.
    destruct (IH (record (StorageSign (img_full_path img) (default 3600 None)
                    (bool_decide (is_Some (storage_sign_result w (img_full_path img)
                                             (default 3600 None)))))
                 (record (StorageSign (img_preview_path img) (default 3600 None)
                    (bool_decide (is_Some (storage_sign_result w (img_preview_path img)
                                             (default 3600 None))))) s)))
      as (s' & -> & Hb & Hi).
    exists s'. repeat split; assumption.
Qed.

Lemma GET_images_run (w : World) (b : ListBackend) (session : JWTPayload)
    (page limit : option Z) (s : State) :
  falsy (env_SUPABASE_SERVICE_ROLE_KEY (process_env w)) = false ->
  let p := default 1 page in
  let l := default 20 limit in
  let count :=
    match db_count_fault b with
    | Some _ => None
    | None => Some (Z.of_nat (length (filter (fun img => img_user_id img = userId session)
                                        (images s))))
    end in
  let answer :=
    window_answer b (user_rows b (userId session) s) ((p - 1) * l) ((p - 1) * l + l - 1) in
  let imgs := match answer with Some data => data | None => [] end in
  let total := match answer with Some _ => number_or count 0 | None => 0 end in
  exists s',
    GET_images w b (Some session) page limit s =
      ({| p_status := 200; p_success := true; p_error := None;
          p_data := with_urls w <$> imgs;
          p_page := p; p_limit := l; p_total := total; p_hasMore := p * l <? total |}, s') /\
    bucket s' = bucket s /\ images s' = images s.
Proof.
  intros Hkey. cbv zeta.
  unfold GET_images, try_catch, GET_images_body, parseInt_env. unfold bind at 1.
  rewrite (getUserImages_run w b (userId session) (Some (default 1 page))
             (Some (default 20 limit)) s Hkey).
  cbn [default fst snd].
  destruct (window_answer b _ _ _) as [data|]; cbn [fst snd]; unfold bind.
  - match goal with |- context [sign_images w data ?s0] =>
      destruct (sign_images_run w data s0 Hkey) as (s' & -> & Hb & Hi) end.
    exists s'. split; [reflexivity|]. split; [rewrite Hb|rewrite Hi]; reflexivity.
  - eexists. cbn [sign_images ret fst snd fmap list_fmap]. repeat split.
Qed.

Lemma window_answer_page (b : ListBackend) (rows : list Image) (p l : Z) :
  db_list_fault b = None -> 1 <= p -> 1 <= l ->
  match window_answer b rows ((p - 1) * l) ((p - 1) * l + l - 1) with
  | Some data => data
  | None => []
  end = take (Z.to_nat l) (drop (Z.to_nat ((p - 1) * l)) rows).
Proof.
  intros Hf Hp Hl. unfold window_answer. rewrite Hf.
  assert (0 <= (p - 1) * l) by nia.
  destruct (Z.ltb_spec ((p - 1) * l) 0); [lia|].
  destruct (Z.ltb_spec ((p - 1) * l + l - 1) ((p - 1) * l)); [lia|].
  cbn [orb].
  destruct (Z.ltb_spec (Z.of_nat (length rows)) ((p - 1) * l)).
  - rewrite drop_ge by lia. rewrite take_nil.
    destruct (db_window_past_end_fault b); reflexivity.
  - f_equal. f_equal. lia.
Qed.

Lemma window_answer_in_range (b : ListBackend) (rows : list Image) (p l : Z) :
  db_list_fault b = None -> 1 <= p -> 1 <= l ->
  (p - 1) * l <= Z.of_nat (length rows) ->
  is_Some (window_answer b rows ((p - 1) * l) ((p - 1) * l + l - 1)).
Proof.
  intros Hf Hp Hl Hn. unfold window_answer. rewrite Hf.
  assert (0 <= (p - 1) * l) by nia.
  destruct (Z.ltb_spec ((p - 1) * l) 0); [lia|].
  destruct (Z.ltb_spec ((p - 1) * l + l - 1) ((p - 1) * l)); [lia|].
  cbn [orb].
  destruct (Z.ltb_spec (Z.of_nat (length rows)) ((p - 1) * l)); [lia|]. eauto.
Qed.

Lemma concat_windows {A : Type} (rows : list A) (l k : nat) :
  concat ((fun i => take l (drop (i * l) rows)) <$> seq 0 k) = take (k * l) rows.
Proof.
  induction k as [|k IH]; [reflexivity|].
  rewrite seq_S, fmap_app, concat_app, IH. cbn [fmap list_fmap concat plus].
  rewrite app_nil_r, take_take_drop. f_equal. lia.
Qed.

Lemma user_rows_same_table (b : ListBackend) (u : string) (s s0 : State) :
  images s0 = images s -> user_rows b u s0 = user_rows b u s.
Proof. intros E. unfold user_rows. rewrite E. reflexivity. Qed.

(** X12. [GET /api/images] only reads: without a session it answers 401
    and calls nothing, without the service key 500; every item it returns
    is a row of the caller with the URLs the store signed for it, and there
    are at most [limit] items. *)
Theorem GET_images_scoped (w : World) (b : ListBackend) (session : option JWTPayload)
    (page limit : option Z) (s : State) :
  (forall l, db_order_created_at_desc b l ≡ₚ l) ->
  let resp := fst (GET_images w b session page limit s) in
  let s' := snd (GET_images w b session page limit s) in
  bucket s' = bucket s /\ images s' = images s /\
  (session = None -> resp = paginated_failure 401 "Unauthorized" /\ s' = s) /\
  (falsy (env_SUPABASE_SERVICE_ROLE_KEY (process_env w)) = true ->
   forall u, session = Some u ->
     resp = paginated_failure 500 "Failed to fetch images" /\ s' = s) /\
  Z.of_nat (length (p_data resp)) <= Z.max 0 (default 20 limit) /\
  forall item, item ∈ p_data resp ->
    exists u, session = Some u /\
      image item ∈ images s /\ img_user_id (image item) = userId u /\
      item = with_urls w (image item).
Proof.
  intros Hperm. cbv zeta.
  destruct session as [u|].
  2:{ cbn. repeat split; try discriminate; try lia. intros item Hin. inversion Hin. }
  destruct (falsy (env_SUPABASE_SERVICE_ROLE_KEY (process_env w))) eqn:Hkey.
  { unfold GET_images, try_catch, GET_images_body, getUserImages, getSupabaseAdmin,
      bind, throw. rewrite Hkey. cbn.
    repeat split; try discriminate; try lia. intros item Hin. inversion Hin. }
  destruct (GET_images_run w b u page limit s Hkey) as (s' & -> & Hb & Hi).
  cbn [fst snd p_data].
  split; [assumption|]. split; [assumption|]. split; [discriminate|].
  split; [discriminate|].
  destruct (window_answer b (user_rows b (userId u) s) _ _) as [data|] eqn:Hw.
  2:{ cbn. split; [lia|]. intros item Hin. inversion Hin. }
  apply window_answer_within in Hw. destruct Hw as [Hsub Hlen].
  rewrite length_fmap. split; [lia|].
  intros item Hin. apply list_elem_of_fmap in Hin. destruct Hin as (img & -> & Hin).
  exists u. split; [reflexivity|]. cbn [image with_urls].
  apply Hsub in Hin. unfold user_rows in Hin. rewrite (Hperm _) in Hin.
  apply list_elem_of_filter in Hin. destruct Hin as [Ho Hin].
  repeat split; assumption.
Qed.

Lemma GET_images_scoped_witness :
  Forall (fun item => img_user_id (image item) = "u1")
    (p_data (fst (GET_images world_ok list_backend_ok (Some user1) None None state_gallery))).
Proof.
  apply Forall_forall. intros item Hin.
  destruct (GET_images_scoped world_ok list_backend_ok (Some user1) None None state_gallery)
    as (_ & _ & _ & _ & _ & H).
  - intros l. apply rev_permutation.
  - destruct (H item Hin) as (u & Hu & _ & Ho & _). injection Hu as <-. exact Ho.
Defined.

(** X13. With no fault, for a page [p >= 1] of size [l >= 1] that starts
    within the user's rows, [GET /api/images] returns rows
    [(p-1)*l .. p*l-1] of the user's ordered rows, the number of the user's
    rows as total, and [hasMore] exactly when rows remain after this page. *)
Theorem GET_images_page (w : World) (b : ListBackend) (session : JWTPayload)
    (p l : Z) (s : State) :
  falsy (env_SUPABASE_SERVICE_ROLE_KEY (process_env w)) = false ->
  db_count_fault b = None -> db_list_fault b = None ->
  (forall rows, db_order_created_at_desc b rows ≡ₚ rows) ->
  1 <= p -> 1 <= l ->
  let rows := user_rows b (userId session) s in
  (p - 1) * l <= Z.of_nat (length rows) ->
  let resp := fst (GET_images w b (Some session) (Some p) (Some l) s) in
  p_status resp = 200 /\ p_success resp = true /\
  p_page resp = p /\ p_limit resp = l /\
  p_data resp = with_urls w <$> take (Z.to_nat l) (drop (Z.to_nat ((p - 1) * l)) rows) /\
  p_total resp = Z.of_nat (length rows) /\
  (p_hasMore resp = true <-> drop (Z.to_nat (p * l)) rows <> []).
Proof.
  intros Hkey Hc Hf Hperm Hp Hl rows Hin. cbv zeta.
  destruct (GET_images_run w b session (Some p) (Some l) s Hkey) as (s' & -> & _ & _).
  cbn [fst from_option p_status p_success p_page p_limit p_data p_total p_hasMore].
  change (id p) with p. change (id l) with l. fold rows.
  pose proof (window_answer_page b rows p l Hf Hp Hl) as Hpage.
  destruct (window_answer_in_range b rows p l Hf Hp Hl Hin) as [data Hw].
  rewrite Hw in Hpage |- *. rewrite Hc.
  assert (Hlen : length (filter (fun img => img_user_id img = userId session) (images s))
                 = length rows).
  { unfold rows, user_rows. rewrite (Hperm _). reflexivity. }
  rewrite Hlen.
  assert (Ht : number_or (Some (Z.of_nat (length rows))) 0 = Z.of_nat (length rows)).
  { unfold number_or. destruct (Z.of_nat (length rows)) eqn:E; reflexivity. }
  rewrite Ht, Hpage.
  repeat split.
  - intros Hm. apply Z.ltb_lt in Hm. intros Hd.
    apply (f_equal length) in Hd. rewrite length_drop in Hd. cbn in Hd. lia.
  - intros Hd. apply Z.ltb_lt.
    destruct (Z.lt_ge_cases (p * l) (Z.of_nat (length rows))); [assumption|].
    exfalso. apply Hd. apply drop_ge. lia.
Qed.

Lemma GET_images_page_witness :
  p_data (fst (GET_images world_ok list_backend_ok (Some user1) (Some 2) (Some 1)
                 state_gallery)) = [with_urls world_ok row1] /\
  p_total (fst (GET_images world_ok list_backend_ok (Some user1) (Some 2) (Some 1)
                  state_gallery)) = 2 /\
  p_hasMore (fst (GET_images world_ok list_backend_ok (Some user1) (Some 2) (Some 1)
                    state_gallery)) = false.
Proof.
  destruct (GET_images_page world_ok list_backend_ok user1 2 1 state_gallery)
    as (_ & _ & _ & _ & Hd & Ht & Hm); try reflexivity; try lia.
  - intros l. apply rev_permutation.
  - vm_compute. discriminate.
  - split; [exact Hd|]. split; [exact Ht|].
    destruct (p_hasMore _); [|reflexivity].
    exfalso. apply (proj1 Hm eq_refl). reflexivity.
Defined.

(** X14. Pages [1..k] of size [l >= 1], fetched in any states with the same
    table, concatenate to the first [k*l] of the user's ordered rows: no row
    is skipped or repeated, and once [k*l] reaches the number of rows the
    pages are all of them. *)
Theorem GET_images_pages_enumerate (w : World) (b : ListBackend) (session : JWTPayload)
    (l : Z) (s : State) (k : nat) :
  falsy (env_SUPABASE_SERVICE_ROLE_KEY (process_env w)) = false ->
  db_list_fault b = None ->
  1 <= l ->
  let rows := user_rows b (userId session) s in
  exists pages : list (list Image),
    length pages = k /\
    (forall i page s0,
       pages !! i = Some page -> images s0 = images s ->
       p_data (fst (GET_images w b (Some session) (Some (Z.of_nat i + 1)) (Some l) s0))
       = with_urls w <$> page) /\
    concat pages = take (k * Z.to_nat l) rows /\
    (Z.of_nat (length rows) <= Z.of_nat k * l -> concat pages = rows).
Proof.
  intros Hkey Hf Hl rows.
  exists ((fun i => take (Z.to_nat l) (drop (i * Z.to_nat l) rows)) <$> seq 0 k).
  split; [rewrite length_fmap, length_seq; reflexivity|].
  split; [|split].
  - intros i page s0 Hi Hs0. rewrite list_lookup_fmap in Hi.
    destruct (seq 0 k !! i) as [j|] eqn:Hj; [|discriminate].
    apply lookup_seq in Hj. destruct Hj as [-> _]. cbn in Hi. injection Hi as <-.
    destruct (GET_images_run w b session (Some (Z.of_nat i + 1)) (Some l) s0 Hkey)
      as (s' & -> & _ & _).
    cbn [fst from_option p_data]. change (id l) with l.
    change (id (Z.of_nat i + 1)) with (Z.of_nat i + 1).
    rewrite (user_rows_same_table b _ s s0 Hs0). fold rows.
    rewrite (window_answer_page b rows (Z.of_nat i + 1) l Hf) by lia.
    do 3 f_equal. nia.
  - apply concat_windows.
  - intros Hn. rewrite concat_windows. apply take_ge. nia.
Qed.

Lemma GET_images_pages_enumerate_witness :
  exists pages,
    length pages = 2%nat /\ concat pages = [row3; row1] /\
    Forall (fun ip =>
              p_data (fst (GET_images world_ok list_backend_ok (Some user1)
                             (Some (Z.of_nat ip.1 + 1)) (Some 1) state_gallery))
              = with_urls world_ok <$> ip.2)
           (imap (fun i page => (i, page)) pages).
Proof.
  destruct (GET_images_pages_enumerate world_ok list_backend_ok user1 1 state_gallery 2)
    as (pages & Hlen & Hpage & Hcat & _); try reflexivity; try lia.
  exists pages. split; [exact Hlen|]. split; [exact Hcat|].
  apply Forall_forall. intros [i page] Hin.
  apply elem_of_lookup_imap in Hin. destruct Hin as (i' & page' & [= -> ->] & Hi).
  apply (Hpage i' page' state_gallery Hi eq_refl).
Defined.

(** X15. [GET /api/images] reports a failing list query as a successful
    empty page (200, no error, total 0, no more pages), and a failing count
    query as total 0 with no more pages. *)
Theorem GET_images_faults_masked (w : World) (b : ListBackend) (session : JWTPayload)
    (page limit : option Z) (s : State) :
  falsy (env_SUPABASE_SERVICE_ROLE_KEY (process_env w)) = false ->
  0 <= default 1 page * default 20 limit ->
  let resp := fst (GET_images w b (Some session) page limit s) in
  p_status resp = 200 /\ p_success resp = true /\ p_error resp = None /\
  (is_Some (db_list_fault b) ->
   p_data resp = [] /\ p_total resp = 0 /\ p_hasMore resp = false) /\
  (is_Some (db_count_fault b) -> p_total resp = 0 /\ p_hasMore resp = false).
Proof.
  intros Hkey Hpl. cbv zeta.
  destruct (GET_images_run w b session page limit s Hkey) as (s' & -> & _ & _).
  cbn [fst p_status p_success p_error p_data p_total p_hasMore].
  split; [reflexivity|]. split; [reflexivity|]. split; [reflexivity|].
  assert (Hno : (default 1 page * default 20 limit <? 0) = false) by (apply Z.ltb_ge; lia).
  split.
  - intros [e He]. unfold window_answer. rewrite He. cbn [fmap list_fmap].
    repeat split. exact Hno.
  - intros [e He]. rewrite He. cbn [number_or].
    destruct (window_answer b _ _ _); split; (reflexivity || exact Hno).
Qed.

Lemma GET_images_faults_masked_witness :
  p_status (fst (GET_images world_ok list_backend_down (Some user1) None None state_gallery))
    = 200 /\
  p_data (fst (GET_images world_ok list_backend_down (Some user1) None None state_gallery))
    = [].
Proof.
  destruct (GET_images_faults_masked world_ok list_backend_down user1 None None state_gallery)
    as (Hs & _ & _ & Hl & _); try reflexivity.
  - cbn. lia.
  - split; [exact Hs|]. apply Hl. eexists. reflexivity.
Defined.

(** ** Utilities *)





Lemma invite_char_of_byte (b : Byte.byte) :
  exists c, String.get (Byte.to_nat b mod String.length invite_chars) invite_chars = Some c /\
            c ∈ String.list_ascii_of_string invite_chars.
Proof.
  destruct b; eexists; (split; [reflexivity|]); vm_compute;
    repeat first [apply list_elem_of_here | apply list_elem_of_further].
Qed.

Lemma invite_char_preimages (c : Ascii.ascii) :
  c ∈ String.list_ascii_of_string invite_chars ->
  length (filter (fun b => String.get (Byte.to_nat b mod 32) invite_chars = Some c)
            all_bytes) = 8%nat.
Proof.
  intros Hc. cbn [String.list_ascii_of_string invite_chars] in Hc.
  repeat (apply elem_of_cons in Hc; destruct Hc as [->|Hc]; [vm_compute; reflexivity|]).
  inversion Hc.
Qed.

Lemma generateInviteCode_chars (array : list Byte.byte) :
  length array = 8%nat ->
  let code := generateInviteCode array in
  String.length code = 8%nat /\
  (forall c, c ∈ String.list_ascii_of_string code ->
             c ∈ String.list_ascii_of_string invite_chars) /\
  (forall i b, array !! i = Some b ->
     String.get i code = String.get (Byte.to_nat b mod 32) invite_chars).
Proof.
  intros Hlen.
  do 9 (destruct array as [|? array]; try discriminate Hlen). clear Hlen.
  cbv zeta. unfold generateInviteCode, char_at. cbn [foldl seq lookup list_lookup].
  repeat match goal with
  | b : Byte.byte |- _ =>
      let c := fresh "c" in let Hc := fresh "Hc" in let Hin := fresh "Hin" in
      destruct (invite_char_of_byte b) as (c & Hc & Hin);
      change (String.length invite_chars) with 32%nat in Hc;
      change (String.length invite_chars) with 32%nat;
      rewrite Hc; revert b Hc Hin
  end.
  intros. cbn [String.append String.length].
  split; [reflexivity|]. split.
  - cbn [String.list_ascii_of_string]. intros x Hx.
    repeat (apply elem_of_cons in Hx; destruct Hx as [->|Hx]; [assumption|]).
    inversion Hx.
  - intros i b' Hi.
    do 8 (destruct i as [|i]; [injection Hi as <-; cbn [String.get];
                               symmetry; assumption|]).
    discriminate Hi.
Qed.

(** X17. From the eight random bytes [generateInviteCode] builds a code of
    eight characters of its 32-character alphabet; the i-th character
    depends on the i-th byte alone, and every character of the alphabet is
    produced by exactly 8 of the 256 byte values, so the code has no modulo
    bias. *)
Theorem generateInviteCode_alphabet (array : list Byte.byte) :
  length array = 8%nat ->
  let code := generateInviteCode array in
  String.length code = 8%nat /\
  (forall c, c ∈ String.list_ascii_of_string code ->
             c ∈ String.list_ascii_of_string invite_chars) /\
  (forall i b, array !! i = Some b ->
     String.get i code = String.get (Byte.to_nat b mod 32) invite_chars) /\
  (forall i c, (i < 8)%nat -> c ∈ String.list_ascii_of_string invite_chars ->
     length (filter (fun b => String.get i (generateInviteCode (<[i:=b]> array)) = Some c)
               all_bytes) = 8%nat).
Proof.
  intros Hlen. cbv zeta.
  destruct (generateInviteCode_chars array Hlen) as (H1 & H2 & H3).
  split; [exact H1|]. split; [exact H2|]. split; [exact H3|].
  intros i c Hi Hc. rewrite <- (invite_char_preimages c Hc).
  f_equal. apply list_filter_iff. intros b.
  assert (Hlen' : length (<[i:=b]> array) = 8%nat) by (rewrite length_insert; exact Hlen).
  destruct (generateInviteCode_chars _ Hlen') as (_ & _ & H3').
  rewrite (H3' i b); [reflexivity|].
  apply list_lookup_insert_eq. lia.
Qed.

Lemma generateInviteCode_alphabet_witness :
  String.length (generateInviteCode sample_random_bytes) = 8%nat /\
  String.get 1 (generateInviteCode sample_random_bytes) = Some (Ascii.ascii_of_nat 66).
Proof.
  destruct (generateInviteCode_alphabet sample_random_bytes eq_refl) as (Hl & _ & Hi & _).
  split; [exact Hl|]. rewrite (Hi 1%nat Byte.x21 eq_refl). reflexivity.
Defined.

Lemma trimStart_suffix (s : JsString) : exists k, s = k ++ trimStart s.
Proof.
  induction s as [|c s [k IH]]; [exists []; reflexivity|].
  cbn [trimStart]. destruct (isWhiteSpace c).
  - exists (c :: k). cbn. f_equal. exact IH.
  - exists []. reflexivity.
Qed.

Lemma trimStart_clean (s : JsString) :
  (forall c, head s = Some c -> isWhiteSpace c = false) -> trimStart s = s.
Proof.
  destruct s as [|c s]; [reflexivity|]. intros H. cbn [trimStart].
  rewrite (H c eq_refl). reflexivity.
Qed.

Lemma trim_infix (s : JsString) : exists k1 k2, s = k1 ++ trim s ++ k2.
Proof.
  unfold trim. destruct (trimStart_suffix s) as [k1 H1].
  destruct (trimStart_suffix (reverse (trimStart s))) as [k2 H2].
  exists k1, (reverse k2). rewrite <- reverse_app, <- H2, reverse_involutive. exact H1.
Qed.

(** X18. The result of [sanitizeString] contains neither [<] nor [>], has
    at most 1000 code units and is obtained from the input by deleting code
    units only; an input of at most 1000 units without angle brackets and
    without white space at either end is returned unchanged. *)
Theorem sanitizeString_safe (str : JsString) :
  let out := sanitizeString str in
  (60%N ∉ out) /\ (62%N ∉ out) /\ (length out <= 1000)%nat /\
  out `sublist_of` str /\
  ((length str <= 1000)%nat -> 60%N ∉ str -> 62%N ∉ str ->
   (forall c, head str = Some c -> isWhiteSpace c = false) ->
   (forall c, last str = Some c -> isWhiteSpace c = false) ->
   out = str).
Proof.
  cbv zeta. unfold sanitizeString, remove_angle_brackets.
  assert (Hno : forall c, c ∈ take 1000 (filter (fun c => c <> 60%N /\ c <> 62%N) (trim str)) ->
                          c <> 60%N /\ c <> 62%N).
  { intros c Hc. apply subseteq_take in Hc. apply list_elem_of_filter in Hc. tauto. }
  split; [intros H; apply Hno in H; tauto|].
  split; [intros H; apply Hno in H; tauto|].
  split; [rewrite length_take; lia|].
  split.
  - etrans; [apply sublist_take|]. etrans; [apply sublist_filter|].
    destruct (trim_infix str) as (k1 & k2 & E). rewrite E at 2.
    apply sublist_inserts_l, sublist_inserts_r. reflexivity.
  - intros Hlen H60 H62 Hhead Hlast.
    unfold trim. rewrite (trimStart_clean str Hhead).
    rewrite trimStart_clean, reverse_involutive.
    2:{ intros c. rewrite head_reverse. apply Hlast. }
    rewrite take_ge.
    2:{ etrans; [apply length_filter|exact Hlen]. }
    apply filter_all. intros c Hc. split; intros ->; tauto.
Qed.

(** ** Single-image routes: database faults and repeated deletion *)

(** X19. A failing database query is answered like a missing image: with a
    failing select [GET /api/images/[id]] answers 404 "Image not found", and
    with a failing select or delete [DELETE /api/images/[id]] answers 404
    "Image not found or already deleted" and removes neither the row nor an
    object. *)
Theorem db_faults_answered_404 (w : World) (session : JWTPayload) (id : string) (s : State) :
  falsy (env_SUPABASE_SERVICE_ROLE_KEY (process_env w)) = false ->
  (is_Some (db_select_fault w) ->
   fst (GET_image w (Some session) id s) = failure 404 "Image not found") /\
  (is_Some (db_select_fault w) \/ is_Some (db_delete_fault w) ->
   fst (DELETE w (Some session) id s) = failure 404 "Image not found or already deleted" /\
   images (snd (DELETE w (Some session) id s)) = images s /\
   bucket (snd (DELETE w (Some session) id s)) = bucket s).
Proof.
  intros Hkey. split.
  - intros [e He]. unfold_single. rewrite Hkey, He. reflexivity.
  - intros Hf. unfold_single. rewrite Hkey. cbn [fst snd].
    destruct (db_select_fault w) as [e|] eqn:Hsel; [repeat split|].
    destruct Hf as [[e He]|[e He]]; [discriminate|]. rewrite He.
    destruct (filter _ (images s)) as [|row [|row' rest]]; repeat split.
Qed.

Lemma db_faults_answered_404_witness :
  status (fst (GET_image world_db_down (Some user1) "img-0" state_gallery)) = 404 /\
  status (fst (DELETE world_db_down (Some user1) "img-0" state_gallery)) = 404 /\
  images (snd (DELETE world_db_down (Some user1) "img-0" state_gallery)) = [row1; row2; row3].
Proof.
  destruct (db_faults_answered_404 world_db_down user1 "img-0" state_gallery eq_refl)
    as (Hget & Hdel).
  rewrite Hget by (eexists; reflexivity).
  destruct Hdel as (-> & -> & _); [left; eexists; reflexivity|].
  repeat split.
Defined.

(** X20. After a DELETE that answered 200, the same request again answers
    404 "Image not found or already deleted" and removes nothing more. *)
Theorem DELETE_twice (w : World) (session : JWTPayload) (id : string) (s : State) :
  falsy (env_SUPABASE_SERVICE_ROLE_KEY (process_env w)) = false ->
  let s1 := snd (DELETE w (Some session) id s) in
  status (fst (DELETE w (Some session) id s)) = 200 ->
  fst (DELETE w (Some session) id s1) = failure 404 "Image not found or already deleted" /\
  images (snd (DELETE w (Some session) id s1)) = images s1 /\
  bucket (snd (DELETE w (Some session) id s1)) = bucket s1.
Proof.
  intros Hkey. cbv zeta.
  assert (Hgone : status (fst (DELETE w (Some session) id s)) = 200 ->
                  filter (fun img => owned_by id (userId session) img = true)
                    (images (snd (DELETE w (Some session) id s))) = []).
  { unfold_single. rewrite Hkey. cbn [fst snd].
    destruct (db_select_fault w); [discriminate|].
    destruct (filter _ (images s)) as [|row [|row' rest]]; try discriminate.
    cbn [fst snd]. destruct (db_delete_fault w); [discriminate|]. cbn.
    intros _.
    assert (E : filter (fun img => owned_by id (userId session) img = true)
                  (filter (fun img => owned_by id (userId session) img = false) (images s))
                = []).
    { apply filter_none. intros x Hx Ho. apply list_elem_of_filter in Hx.
      destruct Hx as [Hx _]. congruence. }
    destruct (storage_remove_fault w _); cbn; exact E. }
  intros H200. specialize (Hgone H200).
  generalize dependent (snd (DELETE w (Some session) id s)). intros s1 Hs1.
  unfold_single. rewrite Hkey. cbn [fst snd].
  destruct (db_select_fault w); [repeat split|]. rewrite Hs1. repeat split.
Qed.

Lemma DELETE_twice_witness :
  fst (DELETE world_ok (Some user1) "img-0"
         (snd (DELETE world_ok (Some user1) "img-0" state_gallery)))
    = failure 404 "Image not found or already deleted" /\
  images (snd (DELETE world_ok (Some user1) "img-0"
                 (snd (DELETE world_ok (Some user1) "img-0" state_gallery))))
    = [row2; row3].
Proof.
  destruct (DELETE_twice world_ok user1 "img-0" state_gallery eq_refl eq_refl)
    as (Hresp & Hi & _).
  split; [exact Hresp|]. rewrite Hi. reflexivity.
Defined.
